(** * download_lyrics.py: a shallow embedding and its properties

    The script scans a directory tree for MP3 files, reads an
    (artist, title) pair for each of them, asks a remote lyrics service
    for a match and writes the lyrics next to the track.

    The embedding follows [src/download_lyrics.py] function by function.
    - Python [str] values are lists of Unicode code points.
    - JSON values and the other dynamically typed values of the script
      are the inductive [PyVal]; JSON objects and ID3 tag containers are
      [gmap]s.
    - Effects (the file system, standard output, the calls to the outside
      world) are threaded through the state-and-exception monad [M].
    - Whatever the script cannot decide by itself (what a directory
      holds, what the tag reader or the HTTP session answers, whether a
      write succeeds) is read from an environment record [Env].
    - Two calls are taken to succeed: [print], except for the one line
      made of what the service sent (see [print_formatted]), and the
      lookup of [Path.exists].  Paths are read as strings, which is what
      [pathlib] does for the paths [find_mp3_files] returns. *)

From Stdlib Require Import ZArith NArith QArith Ascii.
From stdpp Require Import gmap list strings.

Set Warnings "-register-all".
Set Default Proof Using "Type".

Open Scope Z_scope.
Open Scope nat_scope.
Open Scope list_scope.

(** ** Python strings *)

(** A Python [str] is a sequence of code points. *)
Abbreviation pystr := (list N).

(** [lit "abc"] is the [str] literal of the ASCII text ["abc"]. *)
Definition lit (s : string) : pystr :=
  (λ a, N_of_ascii a) <$> String.list_ascii_of_string s.

Module Str.

(** [s.startswith(p)] *)
Fixpoint startswith (p s : pystr) : bool :=
  match p, s with
  | [], _ => true
  | _ :: _, [] => false
  | a :: p', b :: s' => bool_decide (a = b) && startswith p' s'
  end.

(** [s.endswith(p)] *)
Definition endswith (p s : pystr) : bool :=
  startswith (reverse p) (reverse s).

(** [s.find(sub)]: the lowest index at which [sub] occurs in [s]. *)
Fixpoint find (sub s : pystr) : option nat :=
  if startswith sub s then Some 0
  else match s with
       | [] => None
       | _ :: s' => S <$> find sub s'
       end.

(** [sub in s] *)
Definition contains (sub s : pystr) : bool :=
  match find sub s with Some _ => true | None => false end.

(** [s.split(sep, 1)] for a non-empty [sep]: at most one split, at the
    first occurrence of the separator. *)
Definition split1 (sep s : pystr) : list pystr :=
  match find sep s with
  | Some i => [take i s; drop (i + length sep) s]
  | None => [s]
  end.

(** The characters [str.strip()] removes: the code points for which
    [str.isspace()] holds. *)
Definition isspace (c : N) : bool :=
  ((9 <=? c) && (c <=? 13) || (28 <=? c) && (c <=? 32)
   || (c =? 133) || (c =? 160) || (c =? 5760)
   || (8192 <=? c) && (c <=? 8202)
   || (c =? 8232) || (c =? 8233) || (c =? 8239) || (c =? 8287)
   || (c =? 12288))%N.

Fixpoint lstrip (s : pystr) : pystr :=
  match s with
  | c :: s' => if isspace c then lstrip s' else s
  | [] => []
  end.

Definition rstrip (s : pystr) : pystr := reverse (lstrip (reverse s)).

(** [s.strip()] *)
Definition strip (s : pystr) : pystr := rstrip (lstrip s).

(** [s.lower()] on the ASCII letters.  The only use of [lower] in the
    script is followed by [endswith('.mp3')]; no code point outside
    ASCII lowers to one of the characters of that suffix, so the
    letters [A-Z] are all that matters there. *)
Definition lower_char (c : N) : N :=
  (if (65 <=? c) && (c <=? 90) then c + 32 else c)%N.

Definition lower (s : pystr) : pystr := lower_char <$> s.

(** The surrogate code points, U+D800 to U+DFFF.  A [str] can hold one on
    its own ([json] decodes the escape ["\ud83d"] to one), and UTF-8 has
    no encoding for it. *)
Definition surrogate (c : N) : bool := ((55296 <=? c) && (c <=? 57343))%N.

(** [s.encode('utf-8')] does not raise. *)
Definition encodable (s : pystr) : bool := forallb (λ c, negb (surrogate c)) s.

(** [s.rfind(c)] for a single character [c]. *)
Fixpoint rfind_char (c : N) (s : pystr) : option nat :=
  match s with
  | [] => None
  | b :: s' =>
      match rfind_char c s' with
      | Some i => Some (S i)
      | None => if bool_decide (b = c) then Some 0 else None
      end
  end.

End Str.

(** ** Paths: [os.path] and [pathlib]

    Paths stay strings.  [pathlib] also normalises a path lexically
    (repeated or trailing slashes, ["."] components); the paths this
    script builds are [os.path.join root file] for a directory entry
    [file], where that normalisation does not touch the final component.
    POSIX separators. *)

Module Path.

Definition slash : N := 47.
Definition dot : N := 46.

(** [os.path.join(a, b)] *)
Definition join (a b : pystr) : pystr :=
  if Str.startswith [slash] b then b
  else if bool_decide (a = []) || Str.endswith [slash] a then a ++ b
  else a ++ slash :: b.

(** [Path(p).name]: the final component.  Read off the string as it is:
    for the paths [find_mp3_files] returns this is the name [pathlib]
    gives; for a path that ends in a slash or in a ["."] component
    [pathlib] first drops that part, which is not followed here. *)
Definition name (p : pystr) : pystr :=
  match Str.rfind_char slash p with
  | Some i => drop (S i) p
  | None => p
  end.

(** [Path(p).suffix]: the last dot of the name and what follows it,
    unless that dot starts or ends the name. *)
Definition suffix (p : pystr) : pystr :=
  let n := name p in
  match Str.rfind_char dot n with
  | Some i => if bool_decide (0 < i) && bool_decide (i < length n - 1)
              then drop i n else []
  | None => []
  end.

(** [Path(p).stem]: the name without its suffix. *)
Definition stem (p : pystr) : pystr :=
  let n := name p in
  match Str.rfind_char dot n with
  | Some i => if bool_decide (0 < i) && bool_decide (i < length n - 1)
              then take i n else n
  | None => n
  end.

(** [Path(p).with_suffix(suffix)]: the path with [suffix] in place of
    its suffix; [None] when the path has no name, where Python raises.
    The script calls it with ['.lrc'] only, a suffix [pathlib] accepts;
    for another [new_suffix] the check [pathlib] makes of it (a leading
    dot, something after it, no slash) is not followed.  The path that
    comes back is the string as it stands, where [pathlib] prints the same
    file without ["./"] and doubled slashes. *)
Definition with_suffix (p new_suffix : pystr) : option pystr :=
  if bool_decide (name p = []) then None
  else Some (take (length p - length (suffix p)) p ++ new_suffix).

End Path.

(** ** Python values

    The values the script handles without knowing their type: what
    [response.json()] returns, and what the helper functions hand to
    each other. *)

Inductive PyVal :=
| PyNone
| PyBool (b : bool)
| PyInt (z : Z)
| PyFloat (q : Q)
| PyStr (s : pystr)
| PyList (l : list PyVal)
| PyDict (d : gmap pystr PyVal).

(** Truth value testing, as [if v:] and [not v] do it. *)
Definition truthy (v : PyVal) : bool :=
  match v with
  | PyNone => false
  | PyBool b => b
  | PyInt z => negb (z =? 0)%Z
  | PyFloat q => negb (Qnum q =? 0)%Z
  | PyStr s => negb (bool_decide (s = []))
  | PyList l => negb (bool_decide (length l = 0))
  | PyDict d => negb (bool_decide (size d = 0))
  end.

(** A variable that holds [None] or a [str]. *)
Definition truthy_str (o : option pystr) : bool :=
  match o with
  | Some (_ :: _) => true
  | _ => false
  end.

(** [not artist or not title], the test of lines 79 and 215. *)
Definition no_metadata (artist title : option pystr) : bool :=
  negb (truthy_str artist) || negb (truthy_str title).

(** ** Exceptions *)

(** The subclasses of [Exception] that can be raised in the script.
    [LibraryError] stands for the errors of the outside world: what
    mutagen, requests or the operating system raise. *)
Inductive exc_kind :=
| NameError (name : pystr)
| AttributeError
| TypeError
| KeyError
| IndexError
| ValueError
| UnicodeEncodeError
| LibraryError (what : pystr).

(** [SystemExit] derives from [BaseException], not from [Exception]:
    an [except Exception] clause lets it through. *)
Inductive exn :=
| Exception (k : exc_kind)
| SystemExit (code : Z).

(** ** Standard output and the calls to the outside world *)

(** One constructor per [print] call of the script, with the values the
    printed line is formatted from. *)
Inductive Msg :=
(* get_mp3_metadata *)
| MsgMetadataError (file_path : pystr) (e : exc_kind)
(* search_lrclib *)
| DbgApiUrl (url : pystr)
| DbgParams (artist title : pystr)
| DbgStatus (status : Z)
| DbgNon200
| DbgFound (n : nat)
| DbgResult (i : nat) (artistName trackName : PyVal)
| MsgSearchError (artist title : pystr) (e : exc_kind)
| MsgTraceback (e : exc_kind)
(* get_lrc_from_result *)
| DbgSynced
| DbgPlain
| DbgNoLyrics
| MsgExtractError (e : exc_kind)
(* save_lrc_file *)
| MsgSaveError (lrc_path : pystr) (e : exc_kind)
(* process_mp3_file *)
| MsgSkipping (name : pystr)
| MsgProcessing (name : pystr)
| MsgNoMetadata (name : pystr)
| MsgArtist (artist : pystr)
| MsgTitle (title : pystr)
| MsgSearching
| MsgNoLyricsFound
| MsgFoundLink (link : PyVal)
| MsgDownloading
| MsgNoContent
| MsgTryDebug
| MsgSaved (name : pystr)
(* main *)
| MsgUsage
| MsgOptions
| MsgOptForce
| MsgOptDebug
| MsgNotDirectory (music_folder : pystr)
| MsgDebugEnabled
| MsgScanning (music_folder : pystr)
| MsgNoFiles
| MsgFoundFiles (n : nat)
| MsgIndex (i n : nat)
| MsgRule
| MsgSuccessCount (n : nat)
| MsgSkipCount (n : nat)
| MsgFailCount (n : nat)
| MsgTotal (n : nat).

Inductive Event :=
| EvPrint (m : Msg)
| EvSleep (seconds : Q)
| EvWalk (root_dir : pystr)
| EvReadTags (file_path : pystr)
| EvHttpGet (url artist_name track_name : pystr).

(** The world a run changes: the files (path to text content) and the
    events so far, oldest first. *)
Record World := mkWorld {
  fs : gmap pystr pystr;
  trace : list Event;
}.

(** What the HTTP session hands back: the status code and what
    [response.json()] gives (a value, or the error of a malformed body). *)
Record Response := mkResponse {
  status_code : Z;
  json : exc_kind + PyVal;
}.

(** The outside world as the script consults it. *)
Record Env := mkEnv {
  (** [os.path.isdir] *)
  os_path_isdir : pystr → bool;
  (** [os.walk]: the (root, dirs, files) triples in visiting order *)
  os_walk : pystr → list (pystr * list pystr * list pystr);
  (** [MP3(file_path, ID3=ID3)]: an error, or [audio.tags], which is
      [None] or maps the frame ids to the [str] of the frames *)
  mutagen_MP3 : pystr → exc_kind + option (gmap pystr pystr);
  (** [session.get(url, params=...)]: a network error, or a response *)
  session_get : pystr → pystr → pystr → exc_kind + Response;
  (** [open(path, 'w')]: the error, if opening fails *)
  io_open : pystr → option exc_kind;
  (** writing and closing: if it fails, what reached the file and the error *)
  io_write : pystr → pystr → option (pystr * exc_kind);
}.

(** ** The monad of the script: state and exceptions *)

Inductive Res (A : Type) :=
| Ok (a : A)
| Raise (e : exn).
Arguments Ok {A} a.
Arguments Raise {A} e.

Definition M (A : Type) : Type := World → Res A * World.

#[export] Instance M_ret : MRet M := λ A a w, (Ok a, w).

#[export] Instance M_bind : MBind M := λ A B f m w,
  match m w with
  | (Ok a, w') => f a w'
  | (Raise e, w') => (Raise e, w')
  end.

Definition raise {A} (e : exn) : M A := λ w, (Raise e, w).

(** [sys.exit(code)] *)
Definition sys_exit {A} (code : Z) : M A := raise (SystemExit code).

Definition lift_exc {A} (r : exc_kind + A) : M A :=
  match r with
  | inl k => raise (Exception k)
  | inr a => mret a
  end.

(** [try: body / except Exception as e: handler e] *)
Definition try_except {A} (body : M A) (handler : exc_kind → M A) : M A :=
  λ w, match body w with
       | (Raise (Exception k), w') => handler k w'
       | r => r
       end.

Definition emit (e : Event) : M unit :=
  λ w, (Ok tt, mkWorld (fs w) (trace w ++ [e])).

(** [print].  Standard output is taken to accept the line, so the call
    returns: the lines of the script are made of its own words, of
    numbers, of the command line and of the names of local files.  The
    one line made of what the service sent, line 132, goes through
    [print_formatted] below. *)
Definition print (m : Msg) : M unit := emit (EvPrint m).

(** [if c: body], without an else branch *)
Definition when (c : bool) (body : M unit) : M unit :=
  if c then body else mret tt.

(** [Path(p).exists()].  The lookup itself is taken to succeed: the
    directories on the way can be searched. *)
Definition path_exists (p : pystr) : M bool :=
  λ w, (Ok (bool_decide (is_Some (fs w !! p))), w).

Definition set_file (p content : pystr) : M unit :=
  λ w, (Ok tt, mkWorld (<[p := content]> (fs w)) (trace w)).

(** ** Operations on Python values *)

(** Whether [str(v)], the text an f-string puts in for [v], can be
    encoded.  The text of a [str] is the [str] itself.  [None], booleans
    and numbers give ASCII, and the text of a list or of a dict is built
    from the [repr] of what it holds, which escapes a surrogate. *)
Definition str_encodable (v : PyVal) : bool :=
  match v with
  | PyStr s => Str.encodable s
  | _ => true
  end.

(** [print] of a line that holds the text of [values], values that come
    from the response of the service.  Nothing makes them fit standard
    output, which is UTF-8: for a text that cannot be encoded the call
    raises [UnicodeEncodeError] and prints nothing of the line. *)
Definition print_formatted (values : list PyVal) (m : Msg) : M unit :=
  if forallb str_encodable values then print m
  else raise (Exception UnicodeEncodeError).

(** [v.get(key)]: only a dict has the method. *)
Definition py_get (v : PyVal) (key : pystr) : M PyVal :=
  match v with
  | PyDict d => mret (default PyNone (d !! key))
  | _ => raise (Exception AttributeError)
  end.

(** [len(v)] *)
Definition py_len (v : PyVal) : M nat :=
  match v with
  | PyStr s => mret (length s)
  | PyList l => mret (length l)
  | PyDict d => mret (size d)
  | _ => raise (Exception TypeError)
  end.

(** [v[0]].  The keys of a JSON object are strings, so [0] is never one
    of them. *)
Definition py_item0 (v : PyVal) : M PyVal :=
  match v with
  | PyList (x :: _) => mret x
  | PyStr (c :: _) => mret (PyStr [c])
  | PyList [] | PyStr [] => raise (Exception IndexError)
  | PyDict _ => raise (Exception KeyError)
  | _ => raise (Exception TypeError)
  end.

(** [v[:3]], as the list of the items a [for] loop over it visits.  A
    dict cannot be sliced. *)
Definition py_slice3 (v : PyVal) : M (list PyVal) :=
  match v with
  | PyList l => mret (take 3 l)
  | PyStr s => mret ((λ c, PyStr [c]) <$> take 3 s)
  | _ => raise (Exception TypeError)
  end.

(** [Path(p).with_suffix(suffix)] raises [ValueError] for a path without a
    name. *)
Definition with_suffix (p suffix : pystr) : M pystr :=
  match Path.with_suffix p suffix with
  | Some q => mret q
  | None => raise (Exception ValueError)
  end.

(** [seq[i]] on a list: [IndexError] when out of range. *)
Definition list_item {A} (l : list A) (i : nat) : M A :=
  match l !! i with
  | Some x => mret x
  | None => raise (Exception IndexError)
  end.

(** ** The module's constants *)

Definition LRCLIB_API_URL : pystr := lit "https://lrclib.net/api".

(** ** The module's global names

    [process_mp3_file] calls [get_lyrics_link] and [get_lrc_content].
    The module defines neither, and imports neither.  Python looks a
    global name up when the call is evaluated, so the namespace is a
    parameter of the embedding: [None] for a name that is not bound, which
    is what running the file gives for both, and [Some f] for a name that
    something has bound to [f]. *)
Record Globals := mkGlobals {
  get_lyrics_link : option (option pystr → option pystr → bool → M PyVal);
  get_lrc_content : option (PyVal → bool → M PyVal);
}.

(** The namespace of the module as the file defines it. *)
Definition module_globals : Globals := mkGlobals None None.

(** Evaluating a global name: [NameError] when it is not bound. *)
Definition global {A} (name : string) (binding : option A) : M A :=
  match binding with
  | Some f => mret f
  | None => raise (Exception (NameError (lit name)))
  end.

(** The counters of [main]'s loop. *)
Record Counts := mkCounts {
  success_count : nat;
  skip_count : nat;
  fail_count : nat;
}.

Section Script.

Variable env : Env.

(** *** [get_mp3_metadata] (lines 59-95) *)

(** [MP3(file_path, ID3=ID3)], then [audio.tags] *)
Definition MP3 (file_path : pystr) : M (option (gmap pystr pystr)) :=
  emit (EvReadTags file_path);;
  lift_exc (mutagen_MP3 env file_path).

(** Lines 64-76: what the tags give. *)
Definition tags_artist_title (tags : option (gmap pystr pystr))
  : option pystr * option pystr :=
  match tags with
  | Some t =>
      if bool_decide (size t = 0) then (None, None)
      else
        (match t !! lit "TPE1" with
         | Some a => Some a
         | None => t !! lit "TPE2"
         end,
         t !! lit "TIT2")
  | None => (None, None)
  end.

Definition get_mp3_metadata (file_path : pystr)
  : M (option pystr * option pystr) :=
  try_except
    (tags ← MP3 file_path;
     let '(artist, title) := tags_artist_title tags in
     if no_metadata artist title then
       let filename := Path.stem file_path in
       if Str.contains (lit " - ") filename then
         let parts := Str.split1 (lit " - ") filename in
         artist ← (if negb (truthy_str artist)
                   then p0 ← list_item parts 0; mret (Some (Str.strip p0))
                   else mret artist);
         title ← (if negb (truthy_str title)
                  then p1 ← list_item parts 1; mret (Some (Str.strip p1))
                  else mret title);
         mret (artist, title)
       else
         mret (Some (lit "Unknown"), Some filename)
     else mret (artist, title))
    (λ e, print (MsgMetadataError file_path e);;
          mret (None, None)).

(** *** [search_lrclib] (lines 98-144) *)

(** Lines 128-132: the debug listing of the first three results.  The
    line of each result holds its artist name and its track name as the
    service sent them. *)
Fixpoint debug_results (i : nat) (results : list PyVal) : M unit :=
  match results with
  | [] => mret tt
  | result :: rest =>
      a ← py_get result (lit "artistName");
      t ← py_get result (lit "trackName");
      print_formatted [a; t] (DbgResult (i + 1) a t);;
      debug_results (S i) rest
  end.

Definition search_lrclib (artist title : pystr) (debug : bool) : M PyVal :=
  try_except
    (let url := LRCLIB_API_URL ++ lit "/search" in
     when debug (print (DbgApiUrl url);; print (DbgParams artist title));;
     emit (EvSleep (1 # 2));;
     emit (EvHttpGet url artist title);;
     response ← lift_exc (session_get env url artist title);
     when debug (print (DbgStatus (status_code response)));;
     if negb (status_code response =? 200)%Z then
       when debug (print DbgNon200);;
       mret PyNone
     else
       results ← lift_exc (json response);
       when debug
         (n ← py_len results;
          print (DbgFound n);;
          when (truthy results)
            (first3 ← py_slice3 results;
             debug_results 0 first3));;
       n ← (if truthy results then py_len results else mret 0);
       if truthy results && bool_decide (0 < n) then py_item0 results
       else mret PyNone)
    (λ e, print (MsgSearchError artist title e);;
          when debug (print (MsgTraceback e));;
          mret PyNone).

(** *** [get_lrc_from_result] (lines 147-177) *)

Definition get_lrc_from_result (result : PyVal) (debug : bool) : M PyVal :=
  try_except
    (if negb (truthy result) then mret PyNone
     else
       synced_lyrics ← py_get result (lit "syncedLyrics");
       if truthy synced_lyrics then
         when debug (print DbgSynced);;
         mret synced_lyrics
       else
         plain_lyrics ← py_get result (lit "plainLyrics");
         if truthy plain_lyrics then
           when debug (print DbgPlain);;
           mret plain_lyrics
         else
           when debug (print DbgNoLyrics);;
           mret PyNone)
    (λ e, print (MsgExtractError e);;
          when debug (print (MsgTraceback e));;
          mret PyNone).

(** *** [save_lrc_file] (lines 180-189) *)

(** [open(lrc_path, 'w', encoding='utf-8')]: creates the file, or
    empties the one that is there. *)
Definition open_w (p : pystr) : M unit :=
  match io_open env p with
  | Some k => raise (Exception k)
  | None => set_file p []
  end.

(** [f.write(content)] and the closing of the file: only a [str] can be
    written; a write that fails leaves what had reached the file. *)
Definition write_close (p : pystr) (content : PyVal) : M unit :=
  match content with
  | PyStr s =>
      match io_write env p s with
      | None => set_file p s
      | Some (written, k) => set_file p written;; raise (Exception k)
      end
  | _ => raise (Exception TypeError)
  end.

Definition save_lrc_file (mp3_path : pystr) (lrc_content : PyVal) : M bool :=
  lrc_path ← with_suffix mp3_path (lit ".lrc");
  try_except
    (open_w lrc_path;;
     write_close lrc_path lrc_content;;
     mret true)
    (λ e, print (MsgSaveError lrc_path e);;
          mret false).

(** *** [find_mp3_files] (lines 192-199) *)

(** The two nested loops over what [os.walk] yields. *)
Definition mp3_paths (walk : list (pystr * list pystr * list pystr))
  : list pystr :=
  flat_map
    (λ '(root, dirs, files),
       Path.join root <$>
         filter (λ file, Str.endswith (lit ".mp3") (Str.lower file) = true)
                files)
    walk.

Definition find_mp3_files (root_dir : pystr) : M (list pystr) :=
  emit (EvWalk root_dir);;
  mret (mp3_paths (os_walk env root_dir)).

Variable G : Globals.

(** *** [process_mp3_file] (lines 202-245) *)

Definition process_mp3_file (mp3_path : pystr) (skip_existing debug : bool)
  : M bool :=
  lrc_path ← with_suffix mp3_path (lit ".lrc");
  lrc_exists ← (if skip_existing then path_exists lrc_path else mret false);
  if skip_existing && (lrc_exists : bool) then
    print (MsgSkipping (Path.name mp3_path));;
    mret false
  else
    print (MsgProcessing (Path.name mp3_path));;
    '(artist, title) ← get_mp3_metadata mp3_path;
    if no_metadata artist title then
      print (MsgNoMetadata (Path.name mp3_path));;
      mret false
    else
      print (MsgArtist (default [] artist));;
      print (MsgTitle (default [] title));;
      print MsgSearching;;
      f ← global "get_lyrics_link" (get_lyrics_link G);
      link ← f artist title debug;
      if negb (truthy link) then
        print MsgNoLyricsFound;;
        mret false
      else
        print (MsgFoundLink link);;
        print MsgDownloading;;
        g ← global "get_lrc_content" (get_lrc_content G);
        lrc_content ← g link debug;
        if negb (truthy lrc_content) then
          print MsgNoContent;;
          when (negb debug) (print MsgTryDebug);;
          mret false
        else
          saved ← save_lrc_file mp3_path lrc_content;
          if (saved : bool) then
            print (MsgSaved (Path.name lrc_path));;
            mret true
          else mret false.

(** *** [main] (lines 248-295) *)

(** Lines 281-288: the body of the loop over the files. *)
Definition loop_body (skip_existing debug : bool) (total : nat)
    (c : Counts) (i : nat) (mp3_path : pystr) : M Counts :=
  print (MsgIndex i total);;
  result ← process_mp3_file mp3_path skip_existing debug;
  if (result : bool) then
    mret (mkCounts (success_count c + 1) (skip_count c) (fail_count c))
  else
    lrc_path ← with_suffix mp3_path (lit ".lrc");
    lrc_exists ← path_exists lrc_path;
    if (lrc_exists : bool) && skip_existing then
      mret (mkCounts (success_count c) (skip_count c + 1) (fail_count c))
    else
      mret (mkCounts (success_count c) (skip_count c) (fail_count c + 1)).

(** Lines 280-288: [for i, mp3_path in enumerate(mp3_files, 1)]. *)
Fixpoint loop (skip_existing debug : bool) (total : nat)
    (c : Counts) (i : nat) (mp3_files : list pystr) : M Counts :=
  match mp3_files with
  | [] => mret c
  | mp3_path :: rest =>
      c' ← loop_body skip_existing debug total c i mp3_path;
      loop skip_existing debug total c' (S i) rest
  end.

(** Lines 290-295: the summary. *)
Definition print_summary (c : Counts) (total : nat) : M unit :=
  print MsgRule;;
  print (MsgSuccessCount (success_count c));;
  when (bool_decide (0 < skip_count c)) (print (MsgSkipCount (skip_count c)));;
  print (MsgFailCount (fail_count c));;
  print (MsgTotal total).

Definition main (argv : list pystr) : M unit :=
  if bool_decide (length argv < 2) then
    print MsgUsage;;
    print MsgOptions;;
    print MsgOptForce;;
    print MsgOptDebug;;
    sys_exit 1
  else
    music_folder ← list_item argv 1;
    let skip_existing := negb (bool_decide (lit "--force" ∈ argv)) in
    let debug := bool_decide (lit "--debug" ∈ argv) in
    if negb (os_path_isdir env music_folder) then
      print (MsgNotDirectory music_folder);;
      sys_exit 1
    else
      when debug (print MsgDebugEnabled);;
      print (MsgScanning music_folder);;
      mp3_files ← find_mp3_files music_folder;
      if bool_decide (mp3_files = []) then
        print MsgNoFiles;;
        sys_exit 0
      else
        print (MsgFoundFiles (length mp3_files));;
        c ← loop skip_existing debug (length mp3_files)
                 (mkCounts 0 0 0) 1 mp3_files;
        print_summary c (length mp3_files).

End Script.

(** The exit status of [python3 download_lyrics.py ...] once the module
    is loaded: what [sys.exit] was given, 1 for an exception nobody
    caught, 0 when [main] returns. *)
Definition exit_code (r : Res unit) : Z :=
  match r with
  | Ok _ => 0
  | Raise (SystemExit code) => code
  | Raise (Exception _) => 1
  end.

(** ** Notions the statements use *)

(** The URL [search_lrclib] queries. *)
Definition search_url : pystr := LRCLIB_API_URL ++ lit "/search".

(** A JSON object. *)
Definition is_dict (v : PyVal) : bool :=
  match v with
  | PyDict _ => true
  | _ => false
  end.

(** [s] is [a], then [sep], then [b], and no occurrence of [sep] in [s]
    starts further left. *)
Definition first_split (sep s a b : pystr) : Prop :=
  s = a ++ sep ++ b ∧ ∀ a' b', s = a' ++ sep ++ b' → length a ≤ length a'.

(** [sep] does not occur in [s]. *)
Definition no_separator (sep s : pystr) : Prop :=
  ∀ a b, s ≠ a ++ sep ++ b.

(** Nothing but whitespace. *)
Definition blank (s : pystr) : Prop := Forall (λ c, Str.isspace c = true) s.

(** No whitespace at either end. *)
Definition trimmed (s : pystr) : Prop :=
  (∀ c, head s = Some c → Str.isspace c = false) ∧
  (∀ c, last s = Some c → Str.isspace c = false).

(** [t] is [s] with the surrounding whitespace trimmed: [s] is [t] with
    nothing but whitespace before and after it, and [t] has none left at
    its ends. *)
Definition trim_of (s t : pystr) : Prop :=
  ∃ l r, s = l ++ t ++ r ∧ blank l ∧ blank r ∧ trimmed t.

(** A computation is [safe] when the only thing it raises is an
    [Exception]: it never leaves through [sys.exit]. *)
Definition safe {A} (m : M A) : Prop :=
  ∀ w c w', m w ≠ (Raise (SystemExit c), w').

(** A computation that [returns] raises nothing, whatever the world. *)
Definition returns {A} (m : M A) : Prop :=
  ∀ w, ∃ a w', m w = (Ok a, w').

(** The sum of the three counters. *)
Definition counted (c : Counts) : nat :=
  success_count c + skip_count c + fail_count c.

(** The world [main] hands to its loop. *)
Definition scanned (w : World) (debug : bool) (music_folder : pystr)
    (n : nat) : World :=
  mkWorld (fs w)
    (trace w ++ (if debug then [EvPrint MsgDebugEnabled] else [])
             ++ [EvPrint (MsgScanning music_folder); EvWalk music_folder;
                 EvPrint (MsgFoundFiles n)]).

(** What [print_summary] adds to the trace. *)
Definition summary (c : Counts) (total : nat) : list Event :=
  [EvPrint MsgRule; EvPrint (MsgSuccessCount (success_count c))]
  ++ (if bool_decide (0 < skip_count c)
      then [EvPrint (MsgSkipCount (skip_count c))] else [])
  ++ [EvPrint (MsgFailCount (fail_count c)); EvPrint (MsgTotal total)].

(** The reading of the metadata as the specification words it: a failure
    is signalled only when the title is empty after the fallback, and the
    artist that comes back is never empty. *)
Definition fails_only_without_title (env : Env) (file_path : pystr)
    (w : World) : Prop :=
  ∀ artist title w',
    get_mp3_metadata env file_path w = (Ok (artist, title), w') →
    (truthy_str title = true → no_metadata artist title = false) ∧
    truthy_str artist = true.

(** A result the debug listing gets through: a JSON object whose artist
    name and track name can be printed. *)
Definition listed (v : PyVal) : bool :=
  match v with
  | PyDict d =>
      str_encodable (default PyNone (d !! lit "artistName")) &&
      str_encodable (default PyNone (d !! lit "trackName"))
  | _ => false
  end.

(** The namespace with the two missing names bound to the functions of
    the module that have their signatures and that nothing calls:
    [search_lrclib(artist, title, debug)] and
    [get_lrc_from_result(result, debug)]. *)
Definition bound_globals (env : Env) : Globals :=
  mkGlobals
    (Some (λ artist title debug,
             search_lrclib env (default [] artist) (default [] title) debug))
    (Some get_lrc_from_result).

(** ** Concrete runs *)

Module Run.

Definition argv : list pystr := [lit "download_lyrics.py"; lit "music"].

(** Nothing on disk, nothing printed yet. *)
Definition start : World := mkWorld ∅ [].

Definition one_dir (files : list pystr)
  : pystr → list (pystr * list pystr * list pystr) :=
  λ root, if bool_decide (root = lit "music")
          then [(lit "music", [], files)] else [].

Definition is_music (p : pystr) : bool := bool_decide (p = lit "music").

Definition offline : pystr → pystr → pystr → exc_kind + Response :=
  λ _ _ _, inl (LibraryError (lit "ConnectionError")).

(** A directory with two untagged tracks, no lyric files. *)
Definition two_tracks : Env :=
  mkEnv is_music (one_dir [lit "A - B.mp3"; lit "notes.txt"; lit "C - D.MP3"])
        (λ _, inr None) offline (λ _, None) (λ _ _, None).

(** One untagged track whose file name starts with the separator. *)
Definition blank_artist : Env :=
  mkEnv is_music (one_dir [lit " - B.mp3"])
        (λ _, inr None) offline (λ _, None) (λ _ _, None).

(** One track that mutagen cannot read. *)
Definition unreadable : Env :=
  mkEnv is_music (one_dir [lit "A - B.mp3"])
        (λ _, inl (LibraryError (lit "HeaderNotFoundError")))
        offline (λ _, None) (λ _ _, None).

(** One track without separator in its name. *)
Definition plain_name : Env :=
  mkEnv is_music (one_dir [lit "Song.mp3"])
        (λ _, inr None) offline (λ _, None) (λ _ _, None).

(** One untagged track with blanks around the two parts of its name. *)
Definition padded_name : Env :=
  mkEnv is_music (one_dir [lit " A  -  B .mp3"])
        (λ _, inr None) offline (λ _, None) (λ _ _, None).

(** An empty directory. *)
Definition empty_dir : Env :=
  mkEnv is_music (one_dir [])
        (λ _, inr None) offline (λ _, None) (λ _ _, None).

Definition hello : pystr := lit "[00:01.00]Hello".

(** A search result with both kinds of lyrics. *)
Definition both_lyrics : gmap pystr PyVal :=
  {[ lit "syncedLyrics" := PyStr hello; lit "plainLyrics" := PyStr (lit "Hello") ]}.

(** A search result whose synced lyrics are [null]. *)
Definition plain_only : gmap pystr PyVal :=
  {[ lit "syncedLyrics" := PyNone; lit "plainLyrics" := PyStr (lit "Hello") ]}.

(** A search result without lyrics. *)
Definition instrumental : gmap pystr PyVal :=
  {[ lit "syncedLyrics" := PyNone; lit "plainLyrics" := PyStr [] ]}.

Definition answering (r : exc_kind + Response) : Env :=
  mkEnv is_music (one_dir [lit "A - B.mp3"])
        (λ _, inr None) (λ _ _ _, r) (λ _, None) (λ _ _, None).

(** A search result whose artist name holds a lone surrogate: the body
    of the answer spells it as the escape ["\ud83d"]. *)
Definition lone_surrogate : gmap pystr PyVal :=
  {[ lit "artistName" := PyStr (lit "A" ++ [55357%N]);
     lit "trackName" := PyStr (lit "B");
     lit "syncedLyrics" := PyStr hello ]}.

(** The service answers with that one match. *)
Definition one_match : Response :=
  mkResponse 200 (inr (PyList [PyDict lone_surrogate])).

(** The service answers with one match and a [null] after it. *)
Definition match_then_null : Response :=
  mkResponse 200 (inr (PyList [PyDict both_lyrics; PyNone])).

Definition two_matches : Response :=
  mkResponse 200 (inr (PyList [PyDict both_lyrics; PyDict plain_only])).

(** The service answers with one match; the disk is full, so the write
    fails after the first five characters. *)
Definition disk_full : Env :=
  mkEnv is_music (one_dir [lit "A - B.mp3"])
        (λ _, inr None)
        (λ _ _ _, inr (mkResponse 200 (inr (PyList [PyDict both_lyrics]))))
        (λ _, None)
        (λ _ content, Some (take 5 content, LibraryError (lit "ENOSPC"))).

(** The lyric file of the first track is there already. *)
Definition with_lyrics : World :=
  mkWorld {[ lit "music/A - B.lrc" := hello ]} [].

(** The lyric files of both tracks are there already. *)
Definition both_there : World :=
  mkWorld {[ lit "music/A - B.lrc" := hello; lit "music/C - D.lrc" := hello ]} [].

End Run.

(** ** The two helpers that nothing calls *)

(** *** [remove_tags] (lines 52-56) *)

Module Html.

Definition lt : N := 60.
Definition gt : N := 62.

(** [re.sub(r'<[^>]+>', '', s)], read from left to right.  [pending] is
    [None] outside a candidate tag; after a ['<'] it holds the characters
    seen since, none of them a ['>'].  The next ['>'] closes the tag,
    which is dropped, unless nothing stands between the two, since
    [[^>]+] wants a character.  When the text ends first, no ['>']
    follows, no tag can start in what is pending, and all of it stays. *)
Fixpoint sub_tags (pending : option pystr) (s : pystr) : pystr :=
  match s, pending with
  | [], None => []
  | [], Some seen => lt :: seen
  | c :: s', None =>
      if bool_decide (c = lt) then sub_tags (Some []) s'
      else c :: sub_tags None s'
  | c :: s', Some seen =>
      if bool_decide (c = gt) then
        match seen with
        | [] => lt :: gt :: sub_tags None s'
        | _ :: _ => sub_tags None s'
        end
      else sub_tags (Some (seen ++ [c])) s'
  end.

End Html.

Definition remove_tags (html_text : pystr) : pystr :=
  Str.strip (Html.sub_tags None html_text).

(** *** [normalize_string] (lines 42-49)

    Two tables of Unicode are parameters: [str.lower()], and the
    alphanumeric code points, which with ['_'] are what [\w] matches.
    [\s] matches the code points [str.strip()] removes. *)

Section Normalize.

Variable unicode_lower : pystr → pystr.
Variable unicode_isalnum : N → bool.

(** [\w] *)
Definition is_word (c : N) : bool := unicode_isalnum c || (c =? 95)%N.

(** [re.sub(r'[^\w\s]', '', s)] *)
Definition sub_non_word (s : pystr) : pystr :=
  filter (λ c, is_word c || Str.isspace c = true) s.

(** [re.sub(r'\s+', ' ', s)]: [in_run] says that the character before
    was whitespace, already replaced. *)
Fixpoint sub_spaces (in_run : bool) (s : pystr) : pystr :=
  match s with
  | [] => []
  | c :: s' =>
      if Str.isspace c then
        if in_run then sub_spaces true s' else 32%N :: sub_spaces true s'
      else c :: sub_spaces false s'
  end.

Definition normalize_string (text : option pystr) : pystr :=
  match text with
  | None | Some [] => []
  | Some t => Str.strip (sub_spaces false (sub_non_word (unicode_lower t)))
  end.

End Normalize.

(** The ASCII part of the table of alphanumeric code points. *)
Definition ascii_isalnum (c : N) : bool :=
  ((48 <=? c) && (c <=? 57) || (65 <=? c) && (c <=? 90)
   || (97 <=? c) && (c <=? 122))%N.

(** ** More notions for the statements *)

(** No two whitespace characters side by side. *)
Definition single_spaced (s : pystr) : Prop :=
  ∀ i c d, s !! i = Some c → s !! S i = Some d →
           Str.isspace c = true → Str.isspace d = false.

(** The same, told from left to right: [after_space] says that the
    character before the string is whitespace. *)
Fixpoint spaced (after_space : bool) (s : pystr) : bool :=
  match s with
  | [] => true
  | c :: s' => negb (after_space && Str.isspace c) && spaced (Str.isspace c) s'
  end.

(** A line on standard output. *)
Definition is_print (e : Event) : bool :=
  match e with
  | EvPrint _ => true
  | _ => false
  end.

(** What a trace holds besides the printed lines: the calls to the
    outside world, in order. *)
Definition calls (t : list Event) : list Event :=
  filter (λ e, is_print e = false) t.

(** A computation that leaves the files as they are, and adds to the
    trace only events for which [P] holds. *)
Definition adds (P : Event → Prop) {A} (m : M A) : Prop :=
  ∀ w, fs (m w).2 = fs w ∧
       ∃ added, trace (m w).2 = trace w ++ added ∧ Forall P added.

(** Printing, walking the directory and reading tags: everything but a
    request to the service. *)
Definition is_local (e : Event) : bool :=
  match e with
  | EvPrint _ | EvWalk _ | EvReadTags _ => true
  | _ => false
  end.

(** A file name that ends in [.mp3], in upper or lower case. *)
Definition has_mp3_extension (file : pystr) : Prop :=
  ∃ base m p,
    file = base ++ [46; m; p; 51]%N ∧
    (m = 109 ∨ m = 77)%N ∧ (p = 112 ∨ p = 80)%N.

(** ** More concrete cases *)

Module Case.

(** Tags with an album artist and a title, no artist frame. *)
Definition album_tags : gmap pystr pystr :=
  {[ lit "TPE2" := lit "The Band"; lit "TIT2" := lit "Song X" ]}.

Definition with_tags (tags : gmap pystr pystr) : Env :=
  mkEnv Run.is_music (Run.one_dir [lit "track01.mp3"; lit "A - B.mp3"])
        (λ _, inr (Some tags)) Run.offline (λ _, None) (λ _ _, None).

Definition tagged : Env := with_tags album_tags.

(** Tags with a title only. *)
Definition title_tag : gmap pystr pystr := {[ lit "TIT2" := lit "Song X" ]}.

Definition title_only : Env := with_tags title_tag.

(** Tags whose artist frame is there and empty. *)
Definition empty_artist_tags : gmap pystr pystr :=
  {[ lit "TPE1" := []; lit "TPE2" := lit "The Band"; lit "TIT2" := lit "Song X" ]}.

Definition empty_artist : Env := with_tags empty_artist_tags.

(** A search result whose synced lyrics are a number. *)
Definition numbered : gmap pystr PyVal :=
  {[ lit "syncedLyrics" := PyInt 5; lit "plainLyrics" := PyStr (lit "Hello") ]}.

End Case.

(** * Properties *)

#[global] Arguments lit : simpl never.
#[global] Arguments Path.stem : simpl never.
#[global] Arguments Path.name : simpl never.
#[global] Arguments Path.with_suffix : simpl never.
#[global] Arguments Str.contains : simpl never.
#[global] Arguments Str.split1 : simpl never.
#[global] Arguments Str.strip : simpl never.

(** Unfolds the operations of the monad, so that a computation applied to
    a world reduces. *)
Ltac munfold :=
  unfold mbind, M_bind, mret, M_ret, when, print_formatted, print, emit,
    raise, lift_exc, sys_exit, path_exists, set_file, with_suffix, list_item,
    global in *.

(** ** Strings: [find], [in], [split] and [strip] *)

Module StrFacts.

Lemma startswith_app p s : Str.startswith p (p ++ s) = true.
Proof. induction p; simpl; [done|]. by rewrite bool_decide_eq_true_2. Qed.

Lemma startswith_inv p s : Str.startswith p s = true → ∃ t, s = p ++ t.
Proof.
  revert s. induction p as [|a p IH]; intros s H; simpl in *; [by eexists|].
  destruct s as [|b s]; [done|].
  apply andb_true_iff in H as [Hab Hp]. apply bool_decide_eq_true in Hab as ->.
  destruct (IH _ Hp) as [t ->]. by eexists.
Qed.

Lemma find_Some sep s i :
  Str.find sep s = Some i →
  ∃ a b, first_split sep s a b ∧ length a = i.
Proof.
  revert i. induction s as [|c s IH]; intros i; simpl.
  - destruct (Str.startswith sep []) eqn:Hp; [|done]. intros [= <-].
    apply startswith_inv in Hp as [t Ht].
    exists [], t. split; [|done]. split; [done|]. intros; simpl; lia.
  - destruct (Str.startswith sep (c :: s)) eqn:Hp.
    + intros [= <-]. apply startswith_inv in Hp as [t Ht].
      exists [], t. split; [|done]. split; [done|]. intros; simpl; lia.
    + destruct (Str.find sep s) as [j|] eqn:Hf; [|done]. intros [= <-].
      destruct (IH j eq_refl) as (a & b & [-> Hmin] & <-).
      exists (c :: a), b. split; [|done]. split; [done|].
      intros [|c' a'] b' Heq; simpl in *.
      * rewrite Heq, startswith_app in Hp. done.
      * injection Heq as -> Heq. apply Hmin in Heq. lia.
Qed.

Lemma find_None sep s : Str.find sep s = None → no_separator sep s.
Proof.
  induction s as [|c s IH]; simpl.
  - destruct (Str.startswith sep []) eqn:Hp; [done|]. intros _ a b Heq.
    destruct a; simpl in *; [|done]. by rewrite Heq, startswith_app in Hp.
  - destruct (Str.startswith sep (c :: s)) eqn:Hp; [done|].
    destruct (Str.find sep s) eqn:Hf; [done|]. intros _ [|c' a] b Heq; simpl in *.
    + by rewrite Heq, startswith_app in Hp.
    + injection Heq as -> Heq. by eapply IH.
Qed.

Lemma first_split_unique sep s a b a' b' :
  first_split sep s a b → first_split sep s a' b' → a = a' ∧ b = b'.
Proof.
  intros [Hs Hmin] [Hs' Hmin'].
  assert (length a = length a') as Hlen.
  { apply Nat.le_antisymm; [by eapply Hmin|by eapply Hmin']. }
  rewrite Hs in Hs'. apply app_inj_1 in Hs' as [-> Hb]; [|done].
  by apply app_inv_head in Hb as ->.
Qed.

Lemma first_split_find sep s a b :
  first_split sep s a b → Str.find sep s = Some (length a).
Proof.
  intros Hab. destruct (Str.find sep s) as [i|] eqn:Hf.
  - apply find_Some in Hf as (a' & b' & Hab' & <-).
    by destruct (first_split_unique _ _ _ _ _ _ Hab Hab') as [-> _].
  - apply find_None in Hf. destruct Hab as [Hs _]. by apply Hf in Hs.
Qed.

Lemma first_split_of_find (sep s : pystr) (i : nat) :
  Str.find sep s = Some i →
  first_split sep s (take i s) (drop (i + length sep) s).
Proof.
  intros Hf. destruct (find_Some _ _ _ Hf) as (a & b & Hab & <-).
  pose proof Hab as [-> _].
  rewrite take_app_length. rewrite drop_app_add'; [|done].
  by rewrite drop_app_length.
Qed.

Lemma split1_first_split sep s a b :
  first_split sep s a b → Str.split1 sep s = [a; b].
Proof.
  intros Hab. unfold Str.split1. rewrite (first_split_find _ _ _ _ Hab).
  destruct Hab as [-> _].
  rewrite take_app_length. rewrite drop_app_add'; [|done].
  by rewrite drop_app_length.
Qed.

Lemma contains_first_split sep s a b :
  first_split sep s a b → Str.contains sep s = true.
Proof. intros Hab. unfold Str.contains. by rewrite (first_split_find _ _ _ _ Hab). Qed.

Lemma contains_false sep s : Str.contains sep s = false ↔ no_separator sep s.
Proof.
  unfold Str.contains. split.
  - destruct (Str.find sep s) eqn:Hf; [done|]. intros _. by apply find_None.
  - intros Hno. destruct (Str.find sep s) eqn:Hf; [|done].
    apply find_Some in Hf as (a & b & [Hs _] & _). by apply Hno in Hs.
Qed.

Lemma contains_true sep s :
  Str.contains sep s = true → ∃ a b, first_split sep s a b.
Proof.
  unfold Str.contains. destruct (Str.find sep s) eqn:Hf; [|done]. intros _.
  apply find_Some in Hf as (a & b & Hab & _). eauto.
Qed.

Lemma lstrip_spec s :
  ∃ l, s = l ++ Str.lstrip s ∧ blank l ∧
       ∀ c, head (Str.lstrip s) = Some c → Str.isspace c = false.
Proof.
  induction s as [|c s (l & Hs & Hl & Hh)]; simpl.
  - exists []. split_and!; [done|constructor|done].
  - destruct (Str.isspace c) eqn:Hc.
    + exists (c :: l). split_and!; [by rewrite Hs at 1|by constructor|done].
    + exists []. split_and!; [done|constructor|]. by intros ? [= <-].
Qed.

Lemma rstrip_spec s :
  ∃ r, s = Str.rstrip s ++ r ∧ blank r ∧
       ∀ c, last (Str.rstrip s) = Some c → Str.isspace c = false.
Proof.
  unfold Str.rstrip. destruct (lstrip_spec (reverse s)) as (l & Hs & Hl & Hh).
  exists (reverse l). split_and!.
  - rewrite <- reverse_app, <- Hs. by rewrite reverse_involutive.
  - unfold blank. by rewrite Forall_reverse.
  - intros c. rewrite last_reverse. apply Hh.
Qed.

(** [strip] takes whitespace off both ends, and nothing else. *)
Lemma strip_spec s :
  ∃ l r, s = l ++ Str.strip s ++ r ∧ blank l ∧ blank r ∧ trimmed (Str.strip s).
Proof.
  unfold Str.strip.
  destruct (lstrip_spec s) as (l & Hs & Hl & Hh).
  destruct (rstrip_spec (Str.lstrip s)) as (r & Ht & Hr & Hla).
  exists l, r. split_and!; [by rewrite <- Ht|done|done|].
  split; [|done]. intros c Hc. apply Hh. rewrite Ht.
  by destruct (Str.rstrip (Str.lstrip s)).
Qed.

Lemma lstrip_blank_app l s : blank l → Str.lstrip (l ++ s) = Str.lstrip s.
Proof. induction 1 as [|c l Hc _ IH]; simpl; [done|]. by rewrite Hc. Qed.

Lemma lstrip_no_space s :
  (∀ c, head s = Some c → Str.isspace c = false) → Str.lstrip s = s.
Proof. destruct s as [|c s]; [done|]. intros H. simpl. by rewrite (H c). Qed.

Lemma rstrip_blank_app s r : blank r → Str.rstrip (s ++ r) = Str.rstrip s.
Proof.
  intros Hr. unfold Str.rstrip. rewrite reverse_app, lstrip_blank_app; [done|].
  unfold blank. by rewrite Forall_reverse.
Qed.

Lemma rstrip_no_space s :
  (∀ c, last s = Some c → Str.isspace c = false) → Str.rstrip s = s.
Proof.
  intros H. unfold Str.rstrip. rewrite lstrip_no_space; [apply reverse_involutive|].
  intros c. rewrite head_reverse. apply H.
Qed.

(** What [trim_of] asks for is what [strip] gives, and nothing else. *)
Lemma trim_of_strip s t : trim_of s t ↔ t = Str.strip s.
Proof.
  split; [|intros ->; apply strip_spec].
  intros (l & r & -> & Hl & Hr & Hh & Hla). unfold Str.strip.
  rewrite lstrip_blank_app by done. destruct t as [|c t].
  - simpl. rewrite <- (app_nil_r r) at 1. by rewrite lstrip_blank_app.
  - rewrite lstrip_no_space by (intros c' Hc'; by apply Hh).
    rewrite rstrip_blank_app by done. by rewrite rstrip_no_space.
Qed.

Lemma trim_of_unique s t t' : trim_of s t → trim_of s t' → t = t'.
Proof. intros Ht%trim_of_strip Ht'%trim_of_strip. congruence. Qed.

End StrFacts.

(** ** Paths: what [find_mp3_files] returns has a name *)

Module PathFacts.

Lemma rfind_char_Some c s i : Str.rfind_char c s = Some i → s !! i = Some c.
Proof.
  revert i. induction s as [|b s IH]; intros i; simpl; [done|].
  destruct (Str.rfind_char c s) as [j|].
  - intros [= <-]. by apply IH.
  - case_bool_decide; [|done]. by intros [= <-]; subst.
Qed.

Lemma name_nil p : Path.name p = [] → p = [] ∨ last p = Some Path.slash.
Proof.
  unfold Path.name. destruct (Str.rfind_char Path.slash p) as [i|] eqn:Hr; [|auto].
  intros Hd. right. apply rfind_char_Some in Hr.
  apply drop_nil_inv in Hd. pose proof (lookup_lt_Some _ _ _ Hr).
  rewrite last_lookup. replace (pred (length p)) with i by lia. done.
Qed.

Lemma last_join a b : b ≠ [] → last (Path.join a b) = last b.
Proof.
  intros Hb. unfold Path.join. destruct b as [|c b]; [done|].
  destruct (Str.startswith _ _); [done|].
  destruct (_ || _); rewrite last_app_cons; [done|].
  by rewrite last_cons_cons.
Qed.

Lemma endswith_mp3_last file :
  Str.endswith (lit ".mp3") (Str.lower file) = true → last file = Some 51%N.
Proof.
  unfold Str.endswith, Str.lower. rewrite <- fmap_reverse.
  rewrite <- (reverse_involutive file) at 2.
  destruct (reverse file) as [|c rest]; [done|].
  rewrite reverse_cons, last_snoc. intros H.
  change (reverse (lit ".mp3")) with [51%N; 112%N; 109%N; 46%N] in H.
  simpl in H. apply andb_true_iff in H as [Hc _].
  apply bool_decide_eq_true in Hc. unfold Str.lower_char in Hc.
  destruct (_ && _) eqn:Hr; [|by rewrite <- Hc].
  apply andb_true_iff in Hr as [Hr _]. apply N.leb_le in Hr. lia.
Qed.

(** Every path [find_mp3_files] returns has a name. *)
Lemma mp3_paths_named walk p :
  p ∈ mp3_paths walk → Path.name p ≠ [].
Proof.
  unfold mp3_paths. intros Hp Hname.
  apply list_elem_of_In, in_flat_map in Hp as ([[root dirs] files] & _ & Hp).
  apply list_elem_of_In, list_elem_of_fmap in Hp as (file & -> & Hfile).
  apply list_elem_of_filter in Hfile as [Hmp3%endswith_mp3_last _].
  assert (file ≠ []) as Hne by (by intros ->).
  apply name_nil in Hname as [Hnil|Hlast].
  - apply (f_equal last) in Hnil. rewrite last_join in Hnil by done.
    by rewrite Hmp3 in Hnil.
  - rewrite last_join in Hlast by done. by rewrite Hmp3 in Hlast.
Qed.

Lemma mp3_paths_with_suffix walk p suffix :
  p ∈ mp3_paths walk → is_Some (Path.with_suffix p suffix).
Proof.
  intros Hp%mp3_paths_named. unfold Path.with_suffix.
  rewrite bool_decide_eq_false_2 by done. by eexists.
Qed.

End PathFacts.

(** ** The monad: what a computation can raise *)

Lemma safe_ret {A} (a : A) : safe (mret a).
Proof. by intros w c w'. Qed.

Lemma safe_raise {A} k : safe (raise (A:=A) (Exception k)).
Proof. by intros w c w'. Qed.

Lemma safe_bind {A B} (m : M A) (f : A → M B) :
  safe m → (∀ a, safe (f a)) → safe (m ≫= f).
Proof.
  intros Hm Hf w c w'. unfold mbind, M_bind.
  destruct (m w) as [[a|[k|c']] w1] eqn:Hmw; [apply Hf|done|].
  by apply Hm in Hmw.
Qed.

Lemma safe_emit e : safe (emit e).
Proof. by intros w c w'. Qed.

Lemma safe_print m : safe (print m).
Proof. apply safe_emit. Qed.

Lemma safe_print_formatted vs m : safe (print_formatted vs m).
Proof.
  unfold print_formatted. destruct (forallb _ _); [apply safe_print|apply safe_raise].
Qed.

Lemma safe_when c m : safe m → safe (when c m).
Proof. intros. destruct c; [done|apply safe_ret]. Qed.

Lemma safe_lift_exc {A} (r : exc_kind + A) : safe (lift_exc r).
Proof. destruct r; [apply safe_raise|apply safe_ret]. Qed.

Lemma safe_py_get v k : safe (py_get v k).
Proof. destruct v; first [apply safe_raise|apply safe_ret]. Qed.

Lemma safe_py_len v : safe (py_len v).
Proof. destruct v; first [apply safe_raise|apply safe_ret]. Qed.

Lemma safe_py_item0 v : safe (py_item0 v).
Proof. destruct v as [| | | |[]|[]|]; first [apply safe_raise|apply safe_ret]. Qed.

Lemma safe_py_slice3 v : safe (py_slice3 v).
Proof. destruct v; first [apply safe_raise|apply safe_ret]. Qed.

Lemma safe_set_file p s : safe (set_file p s).
Proof. by intros w c w'. Qed.

Lemma safe_list_item {A} (l : list A) i : safe (list_item l i).
Proof. unfold list_item. destruct (l !! i); [apply safe_ret|apply safe_raise]. Qed.

Lemma safe_try_except {A} (body : M A) handler :
  safe body → (∀ e, safe (handler e)) → safe (try_except body handler).
Proof.
  intros Hb Hh w c w'. unfold try_except.
  destruct (body w) as [[a|[k|c']] w1] eqn:Hbw; [done|apply Hh|].
  by apply Hb in Hbw.
Qed.

Create HintDb safe discriminated.
#[export] Hint Resolve safe_ret safe_raise safe_emit safe_print
  safe_print_formatted safe_when
  safe_lift_exc safe_py_get safe_py_len safe_py_item0 safe_py_slice3
  safe_set_file safe_list_item : safe.

Ltac safe_tac :=
  repeat first
    [ progress eauto with safe
    | apply safe_bind; [|intros ?]
    | apply safe_when
    | match goal with
      | |- safe (if ?b then _ else _) => destruct b
      | |- safe (match ?x with _ => _ end) => destruct x
      end ].

Lemma safe_debug_results l i : safe (debug_results i l).
Proof. revert i. induction l; intros i; simpl; safe_tac. Qed.

#[export] Hint Resolve safe_debug_results : safe.


Lemma returns_ret {A} (a : A) : returns (mret a).
Proof. intros w. by eexists _, _. Qed.

Lemma returns_bind {A B} (m : M A) (f : A → M B) :
  returns m → (∀ a, returns (f a)) → returns (m ≫= f).
Proof.
  intros Hm Hf w. unfold mbind, M_bind.
  destruct (Hm w) as (a & w1 & ->). apply Hf.
Qed.

Lemma returns_ret_bind {A B} (a : A) (f : A → M B) :
  returns (f a) → returns (mret a ≫= f).
Proof. done. Qed.

Lemma returns_emit e : returns (emit e).
Proof. intros w. by eexists _, _. Qed.

Lemma returns_print m : returns (print m).
Proof. apply returns_emit. Qed.

Lemma returns_when c m : returns m → returns (when c m).
Proof. intros. destruct c; [done|apply returns_ret]. Qed.

Lemma returns_path_exists p : returns (path_exists p).
Proof. intros w. by eexists _, _. Qed.

Lemma returns_try_except {A} (body : M A) handler :
  safe body → (∀ e, returns (handler e)) → returns (try_except body handler).
Proof.
  intros Hb Hh w. unfold try_except.
  destruct (body w) as [[a|[k|c]] w1] eqn:Hbw.
  - by eexists _, _.
  - apply Hh.
  - by apply Hb in Hbw.
Qed.

Create HintDb returns discriminated.
#[export] Hint Resolve returns_ret returns_emit returns_print returns_when
  returns_path_exists : returns.

Ltac returns_tac :=
  repeat first
    [ progress eauto with returns
    | match goal with
      | |- returns (mret _ ≫= _) => apply returns_ret_bind
      end
    | apply returns_bind; [|intros ?]
    | apply returns_when
    | apply returns_try_except; [safe_tac|intros ?]
    | match goal with
      | |- returns (if ?b then _ else _) => destruct b
      | |- returns (match ?x with _ => _ end) => destruct x
      | |- returns (let '(_, _) := ?x in _) => destruct x
      end ].

(** ** [get_lrc_from_result]: which lyrics are taken *)

Lemma truthy_dict_lookup (d : gmap pystr PyVal) k v :
  d !! k = Some v → truthy (PyDict d) = true.
Proof.
  intros Hk. simpl. apply negb_true_iff, bool_decide_eq_false.
  intros Hsz. apply map_size_empty_iff in Hsz. subst d.
  by rewrite lookup_empty in Hk.
Qed.

Lemma truthy_str_nonempty s : s ≠ [] → truthy (PyStr s) = true.
Proof. intros. simpl. by rewrite bool_decide_eq_false_2. Qed.

(** C2.  For a search result that is a JSON object [d]: if its synced
    lyrics are a non-empty string, exactly that string is returned,
    whatever the plain lyrics are; if the synced lyrics are absent or
    empty (missing, [null], the empty string: anything false) and the
    plain lyrics are a non-empty string, exactly the plain lyrics are
    returned; if both are absent or empty, [None] is returned. *)
Theorem get_lrc_from_result_choice (d : gmap pystr PyVal) (debug : bool) (w : World) :
  let synced := default PyNone (d !! lit "syncedLyrics") in
  let plain := default PyNone (d !! lit "plainLyrics") in
  let returned := (get_lrc_from_result (PyDict d) debug w).1 in
  (∀ s, d !! lit "syncedLyrics" = Some (PyStr s) → s ≠ [] →
        returned = Ok (PyStr s)) ∧
  (∀ p, truthy synced = false → d !! lit "plainLyrics" = Some (PyStr p) → p ≠ [] →
        returned = Ok (PyStr p)) ∧
  (truthy synced = false → truthy plain = false → returned = Ok PyNone).
Proof.
  cbv zeta. unfold get_lrc_from_result, try_except. split_and!.
  - intros s Hs Hne.
    rewrite (truthy_dict_lookup _ _ _ Hs). munfold. simpl. rewrite Hs. simpl.
    rewrite (bool_decide_eq_false_2 _ Hne). simpl. by destruct debug.
  - intros p Hsy Hp Hne.
    rewrite (truthy_dict_lookup _ _ _ Hp). munfold. simpl.
    rewrite Hsy. rewrite Hp. simpl.
    rewrite (bool_decide_eq_false_2 _ Hne). simpl. by destruct debug.
  - intros Hsy Hpl.
    destruct (truthy (PyDict d)) eqn:Hd; munfold; simpl; [|done].
    rewrite Hsy, Hpl. by destruct debug.
Qed.

Lemma get_lrc_from_result_choice_run :
  (get_lrc_from_result (PyDict Run.both_lyrics) false Run.start).1
    = Ok (PyStr Run.hello) ∧
  (get_lrc_from_result (PyDict Run.plain_only) false Run.start).1
    = Ok (PyStr (lit "Hello")) ∧
  (get_lrc_from_result (PyDict Run.instrumental) true Run.start).1
    = Ok PyNone.
Proof.
  split_and!.
  - destruct (get_lrc_from_result_choice Run.both_lyrics false Run.start)
      as (H & _ & _).
    apply H; [vm_compute; reflexivity|discriminate].
  - destruct (get_lrc_from_result_choice Run.plain_only false Run.start)
      as (_ & H & _).
    apply H; [vm_compute; reflexivity|vm_compute; reflexivity|discriminate].
  - destruct (get_lrc_from_result_choice Run.instrumental true Run.start)
      as (_ & _ & H).
    apply H; vm_compute; reflexivity.
Defined.

Lemma returns_get_lrc_from_result r d : returns (get_lrc_from_result r d).
Proof. unfold get_lrc_from_result. returns_tac. Qed.

(** ** [search_lrclib]: no result, or the first one *)

Lemma debug_results_listed (l : list PyVal) i w :
  forallb listed l = true → ∃ w', debug_results i l w = (Ok tt, w') ∧ fs w' = fs w.
Proof.
  revert i w. induction l as [|v l IH]; intros i w Hl; simpl in *.
  - by eexists.
  - apply andb_true_iff in Hl as [Hv Hl]. destruct v; try done.
    simpl in Hv. munfold. simpl. rewrite andb_true_r, Hv.
    edestruct (IH (S i)) as (w' & -> & Hfs); [done|].
    eexists. split; [done|]. by rewrite Hfs.
Qed.

Lemma debug_results_not_listed (l : list PyVal) i w :
  forallb listed l = false →
  ∃ e w', debug_results i l w = (Raise (Exception e), w') ∧ fs w' = fs w.
Proof.
  revert i w. induction l as [|v l IH]; intros i w Hl; simpl in *; [done|].
  destruct (listed v) eqn:Hv; simpl in Hl.
  - destruct v; try done. simpl in Hv. munfold. simpl. rewrite andb_true_r, Hv.
    edestruct (IH (S i)) as (e & w' & -> & Hfs); [done|].
    eexists _, _. split; [done|]. by rewrite Hfs.
  - destruct v; try (munfold; simpl; by eexists _, _).
    simpl in Hv. munfold. simpl. rewrite andb_true_r, Hv. by eexists _, _.
Qed.



(** For a 200 answer whose body is a non-empty array, [search_lrclib]
    returns the first element of the array, untouched and whatever follows
    it, unless the debug listing is on and stumbles over one of the first
    three elements; in that case it returns [None]. *)
Lemma search_lrclib_first_result (env : Env) (artist title : pystr) (debug : bool)
    (w : World) (r : Response) (x : PyVal) (xs : list PyVal) :
  session_get env search_url artist title = inr r →
  status_code r = 200%Z →
  json r = inr (PyList (x :: xs)) →
  (search_lrclib env artist title debug w).1 =
    if debug && negb (forallb listed (take 3 (x :: xs))) then Ok PyNone else Ok x.
Proof.
  intros Hr Hs Hj. unfold search_lrclib, try_except. fold search_url.
  unfold mbind, M_bind, mret, M_ret, when, print, emit, raise, lift_exc.
  destruct debug; simpl; rewrite Hr; simpl; rewrite Hs; simpl; rewrite Hj; simpl; [|done].
  destruct (forallb listed (take 3 (x :: xs))) eqn:Hd.
  - pose proof (λ w, debug_results_listed _ 0 w Hd) as H. simpl in H.
    edestruct H as (w' & -> & _). simpl in Hd. by rewrite Hd.
  - pose proof (λ w, debug_results_not_listed _ 0 w Hd) as H. simpl in H.
    edestruct H as (e & w' & -> & _). simpl in Hd. by rewrite Hd.
Qed.

(** C6, which the code does not keep.  The service answers 200 with an
    array of one match, an object with synced lyrics whose artist name
    holds a lone surrogate.  Without the debug flag [search_lrclib] returns
    that match, the first element of the array.  With the debug flag the
    listing of lines 128-132 prints the artist name; standard output
    cannot encode it, the [UnicodeEncodeError] is raised inside the [try],
    and the search returns [None]: the first element is lost, and two
    calls with the same answer of the service differ in what they return. *)
Theorem debug_listing_loses_the_match :
  let env := Run.answering (inr Run.one_match) in
  search_lrclib env (lit "A") (lit "B") false Run.start =
    (Ok (PyDict Run.lone_surrogate),
     mkWorld ∅ [EvSleep (1 # 2); EvHttpGet search_url (lit "A") (lit "B")]) ∧
  search_lrclib env (lit "A") (lit "B") true Run.start =
    (Ok PyNone,
     mkWorld ∅
       [EvPrint (DbgApiUrl search_url);
        EvPrint (DbgParams (lit "A") (lit "B"));
        EvSleep (1 # 2);
        EvHttpGet search_url (lit "A") (lit "B");
        EvPrint (DbgStatus 200);
        EvPrint (DbgFound 1);
        EvPrint (MsgSearchError (lit "A") (lit "B") UnicodeEncodeError);
        EvPrint (MsgTraceback UnicodeEncodeError)]).
Proof. split; vm_compute; reflexivity. Qed.

(** The same loss for an array that holds something that is no object
    among its first three elements: with the debug flag the listing calls
    [get] on it, and the match before it is not returned. *)
Lemma debug_listing_non_object :
  (search_lrclib (Run.answering (inr Run.match_then_null))
     (lit "A") (lit "B") false Run.start).1 = Ok (PyDict Run.both_lyrics) ∧
  (search_lrclib (Run.answering (inr Run.match_then_null))
     (lit "A") (lit "B") true Run.start).1 = Ok PyNone.
Proof. split; vm_compute; reflexivity. Qed.

Lemma returns_search_lrclib env a t d : returns (search_lrclib env a t d).
Proof. unfold search_lrclib. returns_tac. Qed.

(** ** [get_mp3_metadata]: tags, then the file name *)

Lemma truthy_str_true o : truthy_str o = true → ∃ s, o = Some s ∧ s ≠ [].
Proof. destruct o as [[|c s]|]; try done. by eexists. Qed.

Lemma no_metadata_strs a t : no_metadata (Some a) (Some t) = true ↔ a = [] ∨ t = [].
Proof.
  unfold no_metadata. destruct a, t; simpl; split; try done; auto; intros [|]; done.
Qed.

(** C4.  For a file that mutagen reads and whose tags give neither an
    artist nor a title: if the stem of the file name is [a], the first
    occurrence of [" - "], then [b], the artist is [a] and the title is
    [b], each with the surrounding whitespace trimmed, that is without
    the whitespace at its two ends and otherwise as it stands in the
    name; if the stem has no [" - "], the title is the whole stem and the
    artist is ["Unknown"]. *)
Theorem get_mp3_metadata_filename (env : Env) (p : pystr) (w : World)
    (tags : option (gmap pystr pystr)) :
  mutagen_MP3 env p = inr tags →
  truthy_str (tags_artist_title tags).1 = false →
  truthy_str (tags_artist_title tags).2 = false →
  let returned := (get_mp3_metadata env p w).1 in
  (∀ a b, first_split (lit " - ") (Path.stem p) a b →
          ∃ artist title,
            returned = Ok (Some artist, Some title) ∧
            trim_of a artist ∧ trim_of b title) ∧
  (no_separator (lit " - ") (Path.stem p) →
          returned = Ok (Some (lit "Unknown"), Some (Path.stem p))).
Proof.
  intros Htags Ha Ht. cbv zeta.
  unfold get_mp3_metadata, try_except, MP3. munfold. rewrite Htags. simpl.
  destruct (tags_artist_title tags) as [a0 t0]. simpl in Ha, Ht.
  unfold no_metadata. rewrite Ha, Ht. simpl.
  split.
  - intros a b Hab. exists (Str.strip a), (Str.strip b).
    rewrite (StrFacts.contains_first_split _ _ _ _ Hab).
    rewrite (StrFacts.split1_first_split _ _ _ _ Hab).
    split_and!; [done|apply StrFacts.strip_spec..].
  - intros Hno. apply StrFacts.contains_false in Hno. by rewrite Hno.
Qed.

Lemma get_mp3_metadata_filename_run :
  (get_mp3_metadata Run.padded_name (lit "music/ A  -  B .mp3") Run.start).1
    = Ok (Some (lit "A"), Some (lit "B")) ∧
  (get_mp3_metadata Run.plain_name (lit "music/Song.mp3") Run.start).1
    = Ok (Some (lit "Unknown"), Some (lit "Song")).
Proof.
  split.
  - destruct (get_mp3_metadata_filename Run.padded_name
                (lit "music/ A  -  B .mp3") Run.start None
                eq_refl eq_refl eq_refl) as [H _].
    destruct (H (lit " A ") (lit " B ")) as (artist & title & Hr & Ha & Hb).
    { apply (StrFacts.first_split_of_find (lit " - ") (lit " A  -  B ") 3).
      reflexivity. }
    rewrite Hr.
    rewrite (StrFacts.trim_of_unique (lit " A ") artist (lit "A") Ha).
    + rewrite (StrFacts.trim_of_unique (lit " B ") title (lit "B") Hb); [done|].
      exists (lit " "), (lit " ").
      split_and!; [reflexivity|by repeat constructor..|].
      split; intros c [= <-]; reflexivity.
    + exists (lit " "), (lit " ").
      split_and!; [reflexivity|by repeat constructor..|].
      split; intros c [= <-]; reflexivity.
  - destruct (get_mp3_metadata_filename Run.plain_name (lit "music/Song.mp3")
                Run.start None eq_refl eq_refl eq_refl) as [_ H].
    apply H. apply StrFacts.contains_false. reflexivity.
Defined.

(** C3, as the specification has it, fails: for an untagged file named
    [" - B.mp3"] the fallback gives the title ["B"] and the empty artist,
    which the caller's test [not artist or not title] takes for a
    failure. *)
Lemma blank_artist_is_a_failure :
  ¬ fails_only_without_title Run.blank_artist (lit "music/ - B.mp3") Run.start.
Proof.
  intros H.
  destruct (H (Some []) (Some (lit "B"))
              (mkWorld ∅ [EvReadTags (lit "music/ - B.mp3")])) as [_ Hartist].
  - vm_compute. reflexivity.
  - discriminate Hartist.
Qed.

(** C3, amended.  When mutagen raises, [(None, None)] is returned,
    whatever the file name.  When it does not, both values that come back
    are strings, and the caller's test [not artist or not title] signals
    a failure exactly when one of them is empty.  The artist is empty
    only if the tags give no artist and the part of the stem before the
    first [" - "] is blank.  The title is empty only if the tags give no
    title and the part after the first [" - "] is blank, or the stem
    itself is empty.  When the fallback runs on a stem without [" - "],
    the artist is ["Unknown"] and the title is the stem. *)
Theorem get_mp3_metadata_failure (env : Env) (p : pystr) (w : World) :
  let returned := (get_mp3_metadata env p w).1 in
  (∀ e, mutagen_MP3 env p = inl e → returned = Ok (None, None)) ∧
  (∀ tags, mutagen_MP3 env p = inr tags →
     let tag_artist := (tags_artist_title tags).1 in
     let tag_title := (tags_artist_title tags).2 in
     ∃ artist title,
       returned = Ok (Some artist, Some title) ∧
       (no_metadata (Some artist) (Some title) = true ↔ artist = [] ∨ title = []) ∧
       (artist = [] →
          truthy_str tag_artist = false ∧
          ∃ a b, first_split (lit " - ") (Path.stem p) a b ∧ Str.strip a = []) ∧
       (title = [] →
          (truthy_str tag_title = false ∧
           ∃ a b, first_split (lit " - ") (Path.stem p) a b ∧ Str.strip b = [])
          ∨ Path.stem p = []) ∧
       (no_metadata tag_artist tag_title = true →
        no_separator (lit " - ") (Path.stem p) →
          artist = lit "Unknown" ∧ title = Path.stem p)).
Proof.
  cbv zeta. unfold get_mp3_metadata, try_except, MP3. munfold. split.
  - intros e ->. done.
  - intros tags ->. simpl.
    destruct (tags_artist_title tags) as [a0 t0]. cbn [fst snd].
    destruct (no_metadata a0 t0) eqn:Hno.
    + destruct (Str.contains (lit " - ") (Path.stem p)) eqn:Hc.
      * destruct (StrFacts.contains_true _ _ Hc) as (a & b & Hab).
        rewrite (StrFacts.split1_first_split _ _ _ _ Hab).
        destruct (truthy_str a0) eqn:Ha0, (truthy_str t0) eqn:Ht0; simpl.
        -- unfold no_metadata in Hno. by rewrite Ha0, Ht0 in Hno.
        -- apply truthy_str_true in Ha0 as (a1 & -> & Hne).
           eexists _, _. split_and!; [done|apply no_metadata_strs|done| |].
           ++ intros Hb. left. eauto.
           ++ intros _ Hsep%StrFacts.contains_false. congruence.
        -- apply truthy_str_true in Ht0 as (t1 & -> & Hne).
           eexists _, _. split_and!; [done|apply no_metadata_strs| |done|].
           ++ intros Hb. eauto.
           ++ intros _ Hsep%StrFacts.contains_false. congruence.
        -- eexists _, _. split_and!; [done|apply no_metadata_strs| | |].
           ++ intros Hb. eauto.
           ++ intros Hb. left. eauto.
           ++ intros _ Hsep%StrFacts.contains_false. congruence.
      * eexists _, _. split_and!; [done|apply no_metadata_strs|done| |done].
        intros ->. by right.
    + apply orb_false_iff in Hno as [Ha0%negb_false_iff Ht0%negb_false_iff].
      apply truthy_str_true in Ha0 as (a1 & -> & Hne1).
      apply truthy_str_true in Ht0 as (t1 & -> & Hne2).
      eexists _, _. split_and!; [done|apply no_metadata_strs|done|done|done].
Qed.

Lemma get_mp3_metadata_failure_run :
  (get_mp3_metadata Run.unreadable (lit "music/A - B.mp3") Run.start).1
    = Ok (None, None) ∧
  (∃ artist title,
     (get_mp3_metadata Run.plain_name (lit "music/Song.mp3") Run.start).1
       = Ok (Some artist, Some title) ∧
     artist = lit "Unknown" ∧ title = lit "Song").
Proof.
  split.
  - destruct (get_mp3_metadata_failure Run.unreadable (lit "music/A - B.mp3")
                Run.start) as [H _].
    by eapply H.
  - destruct (get_mp3_metadata_failure Run.plain_name (lit "music/Song.mp3")
                Run.start) as [_ H].
    destruct (H None eq_refl) as (artist & title & Hr & _ & _ & _ & Hu).
    exists artist, title. split; [exact Hr|].
    apply Hu; [reflexivity|]. apply StrFacts.contains_false. reflexivity.
Defined.

Lemma returns_get_mp3_metadata env p : returns (get_mp3_metadata env p).
Proof.
  unfold get_mp3_metadata, MP3.
  apply returns_try_except; [|intros e; returns_tac].
  apply safe_bind; [safe_tac|]. intros tags.
  destruct (tags_artist_title tags) as [a t]. safe_tac.
Qed.

(** ** The loop of [main]: one file *)

Lemma process_mp3_file_skip (env : Env) (G : Globals) (mp3_path lrc_path : pystr)
    (debug : bool) (w : World) :
  Path.with_suffix mp3_path (lit ".lrc") = Some lrc_path →
  is_Some (fs w !! lrc_path) →
  process_mp3_file env G mp3_path true debug w =
    (Ok false,
     mkWorld (fs w) (trace w ++ [EvPrint (MsgSkipping (Path.name mp3_path))])).
Proof.
  intros Hlrc Hex. unfold process_mp3_file. munfold. rewrite Hlrc. simpl.
  by rewrite (bool_decide_eq_true_2 _ Hex).
Qed.

(** C8.  Without [--force], for a track whose lyric file exists, the
    iteration of [main]'s loop adds one to the skipped counter and to no
    other, leaves every file as it was, and does nothing but print the
    position and the "skipping" line: no tag is read, no request is
    sent. *)
Theorem skip_existing_lyrics (env : Env) (G : Globals) (mp3_path lrc_path : pystr)
    (debug : bool) (total i : nat) (c : Counts) (w : World) :
  Path.with_suffix mp3_path (lit ".lrc") = Some lrc_path →
  is_Some (fs w !! lrc_path) →
  loop_body env G true debug total c i mp3_path w =
    (Ok (mkCounts (success_count c) (skip_count c + 1) (fail_count c)),
     mkWorld (fs w)
       (trace w ++ [EvPrint (MsgIndex i total);
                    EvPrint (MsgSkipping (Path.name mp3_path))])).
Proof.
  intros Hlrc Hex. unfold loop_body.
  unfold mbind at 1 2, M_bind at 1 2, print at 1, emit at 1.
  erewrite process_mp3_file_skip; [|done|done].
  munfold. rewrite Hlrc. simpl. rewrite (bool_decide_eq_true_2 _ Hex). simpl.
  by rewrite <- app_assoc.
Qed.

Lemma skip_existing_lyrics_run :
  loop_body Run.two_tracks module_globals true false 2 (mkCounts 0 0 0) 1
            (lit "music/A - B.mp3") Run.with_lyrics =
    (Ok (mkCounts 0 1 0),
     mkWorld (fs Run.with_lyrics)
       [EvPrint (MsgIndex 1 2); EvPrint (MsgSkipping (lit "A - B.mp3"))]).
Proof.
  apply (skip_existing_lyrics Run.two_tracks module_globals
           (lit "music/A - B.mp3") (lit "music/A - B.lrc")
           false 2 1 (mkCounts 0 0 0) Run.with_lyrics).
  - reflexivity.
  - exists Run.hello. reflexivity.
Defined.

(** An iteration that gets its answer from [process_mp3_file] increments
    exactly one counter. *)
Lemma loop_body_one_counter (env : Env) (G : Globals) (skip debug : bool)
    (total i : nat) (c c' : Counts) (mp3_path : pystr) (w w' : World) :
  loop_body env G skip debug total c i mp3_path w = (Ok c', w') →
  c' = mkCounts (success_count c + 1) (skip_count c) (fail_count c) ∨
  c' = mkCounts (success_count c) (skip_count c + 1) (fail_count c) ∨
  c' = mkCounts (success_count c) (skip_count c) (fail_count c + 1).
Proof.
  unfold loop_body. munfold. simpl.
  destruct (process_mp3_file _ _ _ _ _ _) as [ [ [ | ] | e ] w1 ]; [ | | done ].
  - intros [= <- _]. auto.
  - destruct (Path.with_suffix _ _); [|done]. simpl.
    destruct (_ && _); intros [= <- _]; auto.
Qed.

Lemma loop_body_counted (env : Env) (G : Globals) (skip debug : bool)
    (total i : nat) (c c' : Counts) (mp3_path : pystr) (w w' : World) :
  loop_body env G skip debug total c i mp3_path w = (Ok c', w') →
  counted c' = S (counted c).
Proof.
  intros H. apply loop_body_one_counter in H as [ -> | [ -> | -> ] ];
    unfold counted; simpl; lia.
Qed.

(** When the loop gets to its end, the counters have grown by the number
    of files. *)
Lemma loop_counted (env : Env) (G : Globals) (skip debug : bool)
    (total : nat) (mp3_files : list pystr) (i : nat) (c c' : Counts) (w w' : World) :
  loop env G skip debug total c i mp3_files w = (Ok c', w') →
  counted c' = counted c + length mp3_files.
Proof.
  revert i c w. induction mp3_files as [|p files IH]; intros i c w; simpl.
  - intros [= <- _]. lia.
  - unfold mbind, M_bind.
    destruct (loop_body _ _ _ _ _ _ _ _ _) as [[c1|e] w1] eqn:Hb; [|done].
    intros Hl. apply IH in Hl. apply loop_body_counted in Hb. lia.
Qed.

(** ** [main]: arguments, exit status, summary *)

Lemma print_summary_eq (c : Counts) (total : nat) (w : World) :
  print_summary c total w = (Ok tt, mkWorld (fs w) (trace w ++ summary c total)).
Proof.
  unfold print_summary, summary. munfold. simpl.
  destruct (bool_decide (0 < skip_count c)); simpl;
    by rewrite <- !app_assoc.
Qed.

Lemma main_usage (env : Env) (G : Globals) (argv : list pystr) (w : World) :
  length argv < 2 →
  main env G argv w =
    (Raise (SystemExit 1),
     mkWorld (fs w)
       (trace w ++ [EvPrint MsgUsage; EvPrint MsgOptions;
                    EvPrint MsgOptForce; EvPrint MsgOptDebug])).
Proof.
  intros Hlen. unfold main. rewrite (bool_decide_eq_true_2 _ Hlen).
  munfold. simpl. by rewrite <- !app_assoc.
Qed.

Lemma main_not_directory (env : Env) (G : Globals) (argv : list pystr)
    (w : World) (music_folder : pystr) :
  argv !! 1 = Some music_folder →
  os_path_isdir env music_folder = false →
  main env G argv w =
    (Raise (SystemExit 1),
     mkWorld (fs w) (trace w ++ [EvPrint (MsgNotDirectory music_folder)])).
Proof.
  intros Hd Hdir. unfold main.
  rewrite bool_decide_eq_false_2; [|apply lookup_lt_Some in Hd; lia].
  munfold. rewrite Hd. simpl. by rewrite Hdir.
Qed.

Lemma main_no_files (env : Env) (G : Globals) (argv : list pystr)
    (w : World) (music_folder : pystr) :
  argv !! 1 = Some music_folder →
  os_path_isdir env music_folder = true →
  mp3_paths (os_walk env music_folder) = [] →
  main env G argv w =
    (Raise (SystemExit 0),
     mkWorld (fs w)
       (trace w
        ++ (if bool_decide (lit "--debug" ∈ argv)
            then [EvPrint MsgDebugEnabled] else [])
        ++ [EvPrint (MsgScanning music_folder); EvWalk music_folder;
            EvPrint MsgNoFiles])).
Proof.
  intros Hd Hdir Hnone. unfold main.
  rewrite bool_decide_eq_false_2; [|apply lookup_lt_Some in Hd; lia].
  unfold find_mp3_files. munfold. rewrite Hd. simpl. rewrite Hdir. simpl.
  destruct (bool_decide (lit "--debug" ∈ argv)); simpl;
    rewrite Hnone; simpl; by rewrite <- ?app_assoc.
Qed.

(** When the loop returns, [main] prints the summary and returns. *)
Lemma main_after_loop (env : Env) (G : Globals) (argv : list pystr) (w : World)
    (music_folder : pystr) (mp3_files : list pystr) (c : Counts) (w1 : World) :
  let skip := negb (bool_decide (lit "--force" ∈ argv)) in
  let debug := bool_decide (lit "--debug" ∈ argv) in
  argv !! 1 = Some music_folder →
  os_path_isdir env music_folder = true →
  mp3_paths (os_walk env music_folder) = mp3_files →
  mp3_files ≠ [] →
  loop env G skip debug (length mp3_files) (mkCounts 0 0 0) 1 mp3_files
       (scanned w debug music_folder (length mp3_files)) = (Ok c, w1) →
  main env G argv w =
    (Ok tt, mkWorld (fs w1) (trace w1 ++ summary c (length mp3_files))).
Proof.
  cbv zeta. unfold main. intros Hd Hdir Hfiles Hne Hloop.
  rewrite bool_decide_eq_false_2; [|apply lookup_lt_Some in Hd; lia].
  unfold find_mp3_files. munfold. rewrite Hd. simpl. rewrite Hdir. simpl.
  unfold scanned in Hloop.
  destruct (bool_decide (lit "--debug" ∈ argv)); simpl in *;
    rewrite Hfiles; rewrite (bool_decide_eq_false_2 _ Hne);
    simpl; rewrite <- ?app_assoc; simpl;
    rewrite <- ?app_assoc in Hloop; simpl in Hloop;
    rewrite Hloop; by rewrite print_summary_eq.
Qed.

(** C9.  [main] leaves with status 1 when there is no positional
    argument and when the argument is not a directory, in both cases
    having done nothing but print the message: no directory walked, no
    file touched.  It leaves with status 0 when no MP3 file is found, and
    when the loop over the files gets to its end, after the summary. *)
Theorem main_exit_codes (env : Env) (G : Globals) (argv : list pystr) (w : World) :
  let skip := negb (bool_decide (lit "--force" ∈ argv)) in
  let debug := bool_decide (lit "--debug" ∈ argv) in
  let run := main env G argv w in
  (length argv < 2 →
     exit_code run.1 = 1%Z ∧
     run.2 = mkWorld (fs w)
               (trace w ++ [EvPrint MsgUsage; EvPrint MsgOptions;
                            EvPrint MsgOptForce; EvPrint MsgOptDebug])) ∧
  (∀ music_folder,
     argv !! 1 = Some music_folder →
     os_path_isdir env music_folder = false →
     exit_code run.1 = 1%Z ∧
     run.2 = mkWorld (fs w)
               (trace w ++ [EvPrint (MsgNotDirectory music_folder)])) ∧
  (∀ music_folder,
     argv !! 1 = Some music_folder →
     os_path_isdir env music_folder = true →
     mp3_paths (os_walk env music_folder) = [] →
     exit_code run.1 = 0%Z ∧ fs run.2 = fs w) ∧
  (∀ music_folder mp3_files c w1,
     argv !! 1 = Some music_folder →
     os_path_isdir env music_folder = true →
     mp3_paths (os_walk env music_folder) = mp3_files →
     mp3_files ≠ [] →
     loop env G skip debug (length mp3_files) (mkCounts 0 0 0) 1 mp3_files
          (scanned w debug music_folder (length mp3_files)) = (Ok c, w1) →
     exit_code run.1 = 0%Z ∧
     run.2 = mkWorld (fs w1) (trace w1 ++ summary c (length mp3_files))).
Proof.
  cbv zeta. split_and!.
  - intros Hlen. by rewrite main_usage.
  - intros d Hd Hdir. by rewrite (main_not_directory _ _ _ _ d).
  - intros d Hd Hdir Hnone. by rewrite (main_no_files _ _ _ _ d).
  - intros d files c w1 Hd Hdir Hfiles Hne Hloop.
    by erewrite main_after_loop.
Qed.

Lemma main_exit_codes_run :
  exit_code (main Run.two_tracks module_globals
               [lit "download_lyrics.py"] Run.start).1 = 1%Z ∧
  exit_code (main Run.two_tracks module_globals
               [lit "download_lyrics.py"; lit "--force"] Run.start).1 = 1%Z ∧
  exit_code (main Run.empty_dir module_globals Run.argv Run.start).1 = 0%Z ∧
  exit_code (main Run.two_tracks module_globals Run.argv Run.both_there).1
    = 0%Z.
Proof.
  split_and!.
  - destruct (main_exit_codes Run.two_tracks module_globals
                [lit "download_lyrics.py"] Run.start) as (H & _).
    apply H. simpl. lia.
  - destruct (main_exit_codes Run.two_tracks module_globals
                [lit "download_lyrics.py"; lit "--force"] Run.start)
      as (_ & H & _).
    apply (H (lit "--force")); reflexivity.
  - destruct (main_exit_codes Run.empty_dir module_globals Run.argv Run.start)
      as (_ & _ & H & _).
    apply (H (lit "music")); reflexivity.
  - destruct (main_exit_codes Run.two_tracks module_globals Run.argv
                Run.both_there) as (_ & _ & _ & H).
    eapply (H (lit "music")); [reflexivity|reflexivity|reflexivity|
                                discriminate|].
    vm_compute. reflexivity.
Defined.

(** ** The file as it is: two names that nothing binds *)

(** In the file as it is, every track that is not skipped and has an
    artist and a title ends [process_mp3_file] with the [NameError]. *)
Lemma process_mp3_file_unbound (env : Env) (mp3_path lrc_path : pystr)
    (skip debug : bool) (w w1 : World) (artist title : option pystr) :
  Path.with_suffix mp3_path (lit ".lrc") = Some lrc_path →
  skip = false ∨ fs w !! lrc_path = None →
  get_mp3_metadata env mp3_path
    (mkWorld (fs w) (trace w ++ [EvPrint (MsgProcessing (Path.name mp3_path))]))
    = (Ok (artist, title), w1) →
  no_metadata artist title = false →
  process_mp3_file env module_globals mp3_path skip debug w =
    (Raise (Exception (NameError (lit "get_lyrics_link"))),
     mkWorld (fs w1)
       (trace w1 ++ [EvPrint (MsgArtist (default [] artist));
                     EvPrint (MsgTitle (default [] title));
                     EvPrint MsgSearching])).
Proof.
  intros Hlrc Hskip Hmeta Hok. unfold process_mp3_file. munfold.
  rewrite Hlrc. simpl. destruct skip.
  - destruct Hskip as [|Hnone]; [done|]. rewrite Hnone.
    rewrite bool_decide_eq_false_2 by (by intros [? ?]). simpl.
    rewrite Hmeta, Hok. simpl. by rewrite <- !app_assoc.
  - simpl. rewrite Hmeta, Hok. simpl. by rewrite <- !app_assoc.
Qed.

(** C1, which the code does not keep.  The directory holds two untagged
    tracks, ["A - B.mp3"] and ["C - D.MP3"].  The first one gets its
    artist and title from its name; [process_mp3_file] then evaluates
    [get_lyrics_link], a name the module never binds.  Nothing catches the
    [NameError]: the second track is never looked at, no summary is
    printed, and the exit status is 1. *)
Theorem batch_aborts_on_unbound_name :
  main Run.two_tracks module_globals Run.argv Run.start =
    (Raise (Exception (NameError (lit "get_lyrics_link"))),
     mkWorld ∅
       [EvPrint (MsgScanning (lit "music")); EvWalk (lit "music");
        EvPrint (MsgFoundFiles 2);
        EvPrint (MsgIndex 1 2);
        EvPrint (MsgProcessing (lit "A - B.mp3"));
        EvReadTags (lit "music/A - B.mp3");
        EvPrint (MsgArtist (lit "A")); EvPrint (MsgTitle (lit "B"));
        EvPrint MsgSearching]) ∧
  exit_code (main Run.two_tracks module_globals Run.argv Run.start).1 = 1%Z.
Proof. split; vm_compute; reflexivity. Qed.

(** ** The three counters *)

(** C10.  Every iteration of the loop of [main] that gets to its end has
    added one to exactly one of the three counters and has left the other
    two as they were.  So when the loop gets to the end of the files, the
    three counters, which start at zero, add up to the number of files;
    and the summary [main] then prints holds counts that add up to the
    number of MP3 files found.  This is so whatever the two global names
    are bound to, unbound as in the file included. *)
Theorem one_counter_per_iteration (env : Env) (G : Globals) :
  (∀ skip debug total c i mp3_path w c' w',
     loop_body env G skip debug total c i mp3_path w = (Ok c', w') →
     c' = mkCounts (success_count c + 1) (skip_count c) (fail_count c) ∨
     c' = mkCounts (success_count c) (skip_count c + 1) (fail_count c) ∨
     c' = mkCounts (success_count c) (skip_count c) (fail_count c + 1)) ∧
  (∀ skip debug total mp3_files w c w',
     loop env G skip debug total (mkCounts 0 0 0) 1 mp3_files w = (Ok c, w') →
     success_count c + skip_count c + fail_count c = length mp3_files) ∧
  (∀ argv w music_folder c w1,
     let skip := negb (bool_decide (lit "--force" ∈ argv)) in
     let debug := bool_decide (lit "--debug" ∈ argv) in
     let mp3_files := mp3_paths (os_walk env music_folder) in
     argv !! 1 = Some music_folder →
     os_path_isdir env music_folder = true →
     mp3_files ≠ [] →
     loop env G skip debug (length mp3_files) (mkCounts 0 0 0) 1 mp3_files
          (scanned w debug music_folder (length mp3_files)) = (Ok c, w1) →
     main env G argv w =
       (Ok tt, mkWorld (fs w1) (trace w1 ++ summary c (length mp3_files))) ∧
     success_count c + skip_count c + fail_count c = length mp3_files).
Proof.
  split_and!.
  - intros skip debug total c i mp3_path w c' w'. apply loop_body_one_counter.
  - intros skip debug total mp3_files w c w' Hloop.
    apply loop_counted in Hloop. unfold counted in Hloop. simpl in Hloop. lia.
  - intros argv w music_folder c w1 skip debug mp3_files Hd Hdir Hne Hloop. split.
    + by eapply main_after_loop.
    + apply loop_counted in Hloop. unfold counted in Hloop. simpl in Hloop. lia.
Qed.

Lemma one_counter_per_iteration_run :
  (mkCounts 0 1 0 = mkCounts 1 0 0 ∨ mkCounts 0 1 0 = mkCounts 0 1 0
   ∨ mkCounts 0 1 0 = mkCounts 0 0 1) ∧
  0 + 2 + 0 = 2 ∧
  ∃ w1, main Run.two_tracks module_globals Run.argv Run.both_there =
          (Ok tt, mkWorld (fs w1) (trace w1 ++ summary (mkCounts 0 2 0) 2)).
Proof.
  destruct (one_counter_per_iteration Run.two_tracks module_globals)
    as (Hbody & Hloop & Hmain).
  split_and!.
  - eapply (Hbody true false 2 (mkCounts 0 0 0) 1 (lit "music/A - B.mp3")
              Run.both_there).
    vm_compute. reflexivity.
  - eapply (Hloop true false 2 [lit "music/A - B.mp3"; lit "music/C - D.MP3"]
              Run.both_there (mkCounts 0 2 0)).
    vm_compute. reflexivity.
  - eexists.
    eapply (Hmain Run.argv Run.both_there (lit "music") (mkCounts 0 2 0));
      [reflexivity|reflexivity|discriminate|].
    vm_compute. reflexivity.
Defined.

(** ** With the two names bound *)

Lemma returns_save_lrc_file env p content :
  is_Some (Path.with_suffix p (lit ".lrc")) → returns (save_lrc_file env p content).
Proof.
  intros [lrc Hlrc]. unfold save_lrc_file, with_suffix, open_w, write_close.
  rewrite Hlrc. returns_tac.
Qed.

#[export] Hint Resolve returns_get_mp3_metadata returns_search_lrclib
  returns_get_lrc_from_result returns_save_lrc_file : returns.

Lemma returns_process_mp3_file env p skip debug :
  is_Some (Path.with_suffix p (lit ".lrc")) →
  returns (process_mp3_file env (bound_globals env) p skip debug).
Proof.
  intros Hp. pose proof Hp as [lrc Hlrc].
  unfold process_mp3_file, with_suffix, global, bound_globals. simpl.
  rewrite Hlrc. returns_tac.
Qed.

Lemma returns_loop_body env p skip debug total c i :
  is_Some (Path.with_suffix p (lit ".lrc")) →
  returns (loop_body env (bound_globals env) skip debug total c i p).
Proof.
  intros Hp. pose proof Hp as [lrc Hlrc].
  unfold loop_body. apply returns_bind; [returns_tac|]. intros _.
  apply returns_bind; [by apply returns_process_mp3_file|]. intros b.
  unfold with_suffix. rewrite Hlrc. returns_tac.
Qed.

Lemma returns_loop env files skip debug total c i :
  Forall (λ p, is_Some (Path.with_suffix p (lit ".lrc"))) files →
  returns (loop env (bound_globals env) skip debug total c i files).
Proof.
  intros Hfiles. revert c i.
  induction Hfiles as [|p files Hp _ IH]; intros c i; simpl.
  - apply returns_ret.
  - apply returns_bind; [by apply returns_loop_body|]. intros c'. apply IH.
Qed.

(** With the two names bound to the module's own functions, no track
    stops the batch: the loop gets to its end, every file is counted once
    and the summary is printed. *)
Theorem bound_main_completes (env : Env) (argv : list pystr) (w : World)
    (music_folder : pystr) :
  argv !! 1 = Some music_folder →
  os_path_isdir env music_folder = true →
  mp3_paths (os_walk env music_folder) ≠ [] →
  let total := length (mp3_paths (os_walk env music_folder)) in
  ∃ c w1,
    main env (bound_globals env) argv w =
      (Ok tt, mkWorld (fs w1) (trace w1 ++ summary c total)) ∧
    counted c = total.
Proof.
  intros Hd Hdir Hne total.
  destruct (returns_loop env (mp3_paths (os_walk env music_folder))
              (negb (bool_decide (lit "--force" ∈ argv)))
              (bool_decide (lit "--debug" ∈ argv)) total (mkCounts 0 0 0) 1)
    with (w := scanned w (bool_decide (lit "--debug" ∈ argv)) music_folder total)
    as (c & w1 & Hloop).
  { apply Forall_forall. intros p Hp. by eapply PathFacts.mp3_paths_with_suffix. }
  exists c, w1. split.
  - by eapply main_after_loop.
  - apply loop_counted in Hloop. unfold counted in *. simpl in Hloop. lia.
Qed.

(** A write that fails, in a namespace the file as it is does not have:
    the two names are bound to [search_lrclib] and [get_lrc_from_result].
    The service has a match for the only track, and the disk is full:
    [open] creates the lyric file, the write fails after five characters,
    [save_lrc_file] prints the error and returns [False].  [main] then
    finds the lyric file on disk, and without [--force] the test of line
    285 counts the track as skipped: the summary says 0 successful,
    1 skipped, 0 failed. *)
Theorem failed_write_counted_as_skipped :
  main Run.disk_full (bound_globals Run.disk_full) Run.argv Run.start =
    (Ok tt,
     mkWorld {[ lit "music/A - B.lrc" := lit "[00:0" ]}
       ([EvPrint (MsgScanning (lit "music")); EvWalk (lit "music");
         EvPrint (MsgFoundFiles 1);
         EvPrint (MsgIndex 1 1);
         EvPrint (MsgProcessing (lit "A - B.mp3"));
         EvReadTags (lit "music/A - B.mp3");
         EvPrint (MsgArtist (lit "A")); EvPrint (MsgTitle (lit "B"));
         EvPrint MsgSearching;
         EvSleep (1 # 2);
         EvHttpGet search_url (lit "A") (lit "B");
         EvPrint (MsgFoundLink (PyDict Run.both_lyrics));
         EvPrint MsgDownloading;
         EvPrint (MsgSaveError (lit "music/A - B.lrc")
                               (LibraryError (lit "ENOSPC")))]
        ++ summary (mkCounts 0 1 0) 1)) ∧
  summary (mkCounts 0 1 0) 1 =
    [EvPrint MsgRule; EvPrint (MsgSuccessCount 0); EvPrint (MsgSkipCount 1);
     EvPrint (MsgFailCount 0); EvPrint (MsgTotal 1)].
Proof. split; vm_compute; reflexivity. Qed.

(** * More of the module *)

(** Settles a decidable statement about concrete values by evaluation. *)
Ltac decide_now := apply (bool_decide_unpack _); vm_compute; exact I.

(** ** [strip] once more *)

Module StripFacts.

Lemma lstrip_head s :
  (∀ c, head s = Some c → Str.isspace c = false) → Str.lstrip s = s.
Proof.
  destruct s as [|c s]; [done|]. intros H. simpl. by rewrite (H c).
Qed.

(** A string without whitespace at its ends is left as it is. *)
Lemma strip_trimmed s : trimmed s → Str.strip s = s.
Proof.
  intros [Hh Hl]. unfold Str.strip, Str.rstrip.
  rewrite (lstrip_head s) by done.
  rewrite lstrip_head; [apply reverse_involutive|].
  intros c. rewrite head_reverse. apply Hl.
Qed.

Lemma strip_idempotent s : Str.strip (Str.strip s) = Str.strip s.
Proof.
  destruct (StrFacts.strip_spec s) as (l & r & _ & _ & _ & Htrim).
  by apply strip_trimmed.
Qed.

End StripFacts.

(** ** [remove_tags] *)

Module HtmlFacts.

Lemma sub_tags_pending_no_gt seen s :
  Html.gt ∉ s → Html.sub_tags (Some seen) s = Html.lt :: seen ++ s.
Proof.
  revert seen. induction s as [|c s IH]; intros seen Hs; simpl.
  - by rewrite app_nil_r.
  - apply not_elem_of_cons in Hs as [Hc Hs].
    rewrite bool_decide_eq_false_2 by done.
    rewrite IH by done. by rewrite <- app_assoc.
Qed.

Lemma sub_tags_no_gt s : Html.gt ∉ s → Html.sub_tags None s = s.
Proof.
  induction s as [|c s IH]; intros Hs; simpl; [done|].
  apply not_elem_of_cons in Hs as [Hc Hs]. case_bool_decide as Hlt.
  - subst c. by rewrite sub_tags_pending_no_gt.
  - by rewrite IH.
Qed.

Lemma sub_tags_prefix a b :
  Html.lt ∉ a → Html.sub_tags None (a ++ b) = a ++ Html.sub_tags None b.
Proof.
  induction a as [|c a IH]; intros Ha; simpl; [done|].
  apply not_elem_of_cons in Ha as [Hc Ha].
  rewrite bool_decide_eq_false_2 by done. by rewrite IH.
Qed.

Lemma sub_tags_no_lt s : Html.lt ∉ s → Html.sub_tags None s = s.
Proof.
  intros Hs. rewrite <- (app_nil_r s) at 1.
  rewrite sub_tags_prefix by done. by rewrite app_nil_r.
Qed.

Lemma sub_tags_pending_close seen t b :
  Html.gt ∉ t →
  Html.sub_tags (Some seen) (t ++ Html.gt :: b) =
    match seen ++ t with
    | [] => Html.lt :: Html.gt :: Html.sub_tags None b
    | _ :: _ => Html.sub_tags None b
    end.
Proof.
  revert seen. induction t as [|c t IH]; intros seen Ht; simpl.
  - rewrite app_nil_r. by destruct seen.
  - apply not_elem_of_cons in Ht as [Hc Ht].
    rewrite bool_decide_eq_false_2 by done.
    rewrite IH by done. by rewrite <- app_assoc.
Qed.

Lemma sub_tags_suffix pending s r :
  Html.lt ∉ r → Html.gt ∉ r →
  Html.sub_tags pending (s ++ r) = Html.sub_tags pending s ++ r.
Proof.
  intros Hlt Hgt. revert pending.
  induction s as [|c s IH]; intros pending; simpl.
  - destruct pending as [seen|].
    + by rewrite sub_tags_pending_no_gt.
    + by rewrite sub_tags_no_lt.
  - destruct pending as [seen|].
    + case_bool_decide; [destruct seen|]; by rewrite IH.
    + case_bool_decide; by rewrite IH.
Qed.

Lemma sub_tags_settled pending s :
  (∀ seen, pending = Some seen → Html.gt ∉ seen) →
  Html.sub_tags None (Html.sub_tags pending s) = Html.sub_tags pending s.
Proof.
  revert pending. induction s as [|c s IH]; intros pending Hp.
  - destruct pending as [seen|]; [|done].
    change (Html.sub_tags (Some []) seen = Html.lt :: seen).
    apply sub_tags_pending_no_gt. by apply Hp.
  - destruct pending as [seen|]; simpl.
    + case_bool_decide as Hc.
      * destruct seen as [|d seen]; [|by apply IH].
        change (Html.lt :: Html.gt :: Html.sub_tags None (Html.sub_tags None s)
                = Html.lt :: Html.gt :: Html.sub_tags None s).
        by rewrite IH.
      * apply IH. intros seen' [= <-]. apply not_elem_of_app. split.
        -- by apply Hp.
        -- by apply not_elem_of_cons; split; [|apply not_elem_of_nil].
    + case_bool_decide as Hc.
      * apply IH. intros seen' [= <-]. apply not_elem_of_nil.
      * simpl. rewrite bool_decide_eq_false_2 by done. by rewrite IH.
Qed.

Lemma sub_tags_sublist pending s :
  sublist (Html.sub_tags pending s)
          (match pending with
           | Some seen => Html.lt :: seen ++ s
           | None => s
           end).
Proof.
  revert pending. induction s as [|c s IH]; intros pending.
  - destruct pending as [seen|]; simpl; [|done]. by rewrite app_nil_r.
  - destruct pending as [seen|]; simpl.
    + case_bool_decide as Hc.
      * subst c. destruct seen as [|d seen]; simpl.
        -- do 2 apply sublist_skip. apply (IH None).
        -- apply sublist_cons, sublist_cons. apply sublist_inserts_l.
           apply sublist_cons. apply (IH None).
      * specialize (IH (Some (seen ++ [c]))). simpl in IH.
        by rewrite <- app_assoc in IH.
    + case_bool_decide as Hc.
      * subst c. apply (IH (Some [])).
      * apply sublist_skip. apply (IH None).
Qed.

Lemma blank_no_lt_gt l : blank l → (Html.lt ∉ l) ∧ (Html.gt ∉ l).
Proof.
  intros Hl. split; intros Hin;
    (eapply Forall_forall in Hl; [|exact Hin]); done.
Qed.

End HtmlFacts.

(** X1.  A text without ['<'], or without ['>'], holds no tag:
    [remove_tags] only strips it. *)
Theorem remove_tags_without_tag (s : pystr) :
  (Html.lt ∉ s) ∨ (Html.gt ∉ s) → remove_tags s = Str.strip s.
Proof.
  unfold remove_tags. intros [Hs|Hs].
  - by rewrite HtmlFacts.sub_tags_no_lt.
  - by rewrite HtmlFacts.sub_tags_no_gt.
Qed.

Lemma remove_tags_without_tag_run :
  remove_tags (lit " 3 > 2 ") = lit "3 > 2".
Proof.
  apply (remove_tags_without_tag (lit " 3 > 2 ")). left.
  decide_now.
Defined.

(** X2.  The first tag goes: when no ['<'] stands before it, and something
    other than ['>'] stands between its brackets, [remove_tags] gives what
    it gives for the text without that tag. *)
Theorem remove_tags_first_tag (a t b : pystr) :
  Html.lt ∉ a → t ≠ [] → Html.gt ∉ t →
  remove_tags (a ++ Html.lt :: t ++ Html.gt :: b) = remove_tags (a ++ b).
Proof.
  intros Ha Hne Ht. unfold remove_tags.
  rewrite !HtmlFacts.sub_tags_prefix by done.
  change (Html.sub_tags None (Html.lt :: t ++ Html.gt :: b))
    with (Html.sub_tags (Some []) (t ++ Html.gt :: b)).
  rewrite HtmlFacts.sub_tags_pending_close by done.
  simpl. by destruct t.
Qed.

Lemma remove_tags_first_tag_run :
  remove_tags (lit "Hi <b>there</b> ") = remove_tags (lit "Hi there</b> ").
Proof.
  apply (remove_tags_first_tag (lit "Hi ") (lit "b") (lit "there</b> ")).
  - decide_now.
  - discriminate.
  - decide_now.
Defined.

(** X3.  Empty brackets are no tag: the substitution of line 55 keeps a
    ["<>"] and goes on after it. *)
Theorem remove_tags_empty_brackets (a b : pystr) :
  Html.lt ∉ a →
  Html.sub_tags None (a ++ Html.lt :: Html.gt :: b) =
    a ++ Html.lt :: Html.gt :: Html.sub_tags None b.
Proof.
  intros Ha. by rewrite HtmlFacts.sub_tags_prefix.
Qed.

Lemma remove_tags_empty_brackets_run :
  Html.sub_tags None (lit "a <> b") = lit "a <> b".
Proof.
  apply (remove_tags_empty_brackets (lit "a ") (lit " b")).
  decide_now.
Defined.

(** X4.  [remove_tags] only deletes: what it returns is the text with some
    characters left out, in the same order, and has no whitespace at
    either end. *)
Theorem remove_tags_keeps_order (s : pystr) :
  sublist (remove_tags s) s ∧ trimmed (remove_tags s).
Proof.
  unfold remove_tags.
  destruct (StrFacts.strip_spec (Html.sub_tags None s))
    as (l & r & Hs & _ & _ & Htrim).
  split; [|done].
  trans (Html.sub_tags None s); [|apply (HtmlFacts.sub_tags_sublist None)].
  rewrite Hs at 2. apply sublist_inserts_l, sublist_inserts_r. done.
Qed.

(** X5.  [remove_tags] leaves nothing for a second pass: applied to its own
    result it changes nothing. *)
Theorem remove_tags_idempotent (s : pystr) :
  remove_tags (remove_tags s) = remove_tags s.
Proof.
  unfold remove_tags.
  pose proof (HtmlFacts.sub_tags_settled None s) as Hset.
  destruct (StrFacts.strip_spec (Html.sub_tags None s))
    as (l & r & Hs & Hl & Hr & Htrim).
  destruct (HtmlFacts.blank_no_lt_gt l Hl) as [Hl1 _].
  destruct (HtmlFacts.blank_no_lt_gt r Hr) as [Hr1 Hr2].
  remember (Str.strip (Html.sub_tags None s)) as m eqn:Hm. clear Hm.
  rewrite Hs in Hset.
  rewrite HtmlFacts.sub_tags_prefix in Hset by done.
  rewrite HtmlFacts.sub_tags_suffix in Hset by done.
  apply app_inv_head, app_inv_tail in Hset; [|done].
  rewrite Hset. by apply StripFacts.strip_trimmed.
Qed.

(** ** [normalize_string] *)

Module NormalizeFacts.

Lemma spaced_single prev s : spaced prev s = true → single_spaced s.
Proof.
  revert prev. induction s as [|a s IH]; intros prev Hs i c d Hc Hd Hsp.
  - done.
  - simpl in Hs. apply andb_true_iff in Hs as [_ Hs].
    destruct i as [|i]; simpl in Hc, Hd.
    + injection Hc as ->. destruct s as [|b s]; [done|].
      injection Hd as ->. simpl in Hs. rewrite Hsp in Hs. simpl in Hs.
      apply andb_true_iff in Hs as [Hb _]. by apply negb_true_iff in Hb.
    + exact (IH _ Hs i c d Hc Hd Hsp).
Qed.

Lemma single_spaced_infix l m r : single_spaced (l ++ m ++ r) → single_spaced m.
Proof.
  intros H i c d Hc Hd. apply (H (length l + i)).
  - rewrite lookup_app_r by lia.
    replace (length l + i - length l) with i by lia.
    by apply lookup_app_l_Some.
  - rewrite lookup_app_r by lia.
    replace (S (length l + i) - length l) with (S i) by lia.
    by apply lookup_app_l_Some.
Qed.

Lemma sub_spaces_spaced in_run s : spaced in_run (sub_spaces in_run s) = true.
Proof.
  revert in_run. induction s as [|c s IH]; intros in_run; simpl; [done|].
  destruct (Str.isspace c) eqn:Hc.
  - destruct in_run; [apply IH|]. simpl. apply IH.
  - simpl. rewrite Hc, andb_false_r. simpl. apply IH.
Qed.

Lemma sub_spaces_chars (P : N → Prop) in_run s :
  P 32%N → Forall (λ c, Str.isspace c = false → P c) s →
  Forall P (sub_spaces in_run s).
Proof.
  intros H32 Hs. revert in_run.
  induction Hs as [|c s Hc _ IH]; intros in_run; simpl; [constructor|].
  destruct (Str.isspace c) eqn:Hsp.
  - destruct in_run; [apply IH|]. constructor; [done|apply IH].
  - constructor; [by apply Hc|apply IH].
Qed.

End NormalizeFacts.

(** X6.  Whatever the text and whatever the two Unicode tables, the result
    of [normalize_string] has no whitespace at either end, no two
    whitespace characters side by side, and holds only spaces and word
    characters that are not whitespace. *)
Theorem normalize_string_shape (unicode_lower : pystr → pystr)
    (unicode_isalnum : N → bool) (text : option pystr) :
  let normal := normalize_string unicode_lower unicode_isalnum text in
  trimmed normal ∧
  single_spaced normal ∧
  Forall (λ c, c = 32%N ∨
               (is_word unicode_isalnum c = true ∧ Str.isspace c = false))
         normal.
Proof.
  cbv zeta. unfold normalize_string.
  assert (trimmed [] ∧ single_spaced [] ∧
          Forall (λ c, c = 32%N ∨ (is_word unicode_isalnum c = true
                                   ∧ Str.isspace c = false)) []) as Hnil.
  { split_and!; [by split|by intros []|constructor]. }
  destruct text as [[|c0 t]|]; [done| |done].
  set (u := sub_spaces false (sub_non_word unicode_isalnum (unicode_lower (c0 :: t)))).
  destruct (StrFacts.strip_spec u) as (l & r & Hu & _ & _ & Htrim).
  split_and!; [done| |].
  - apply (NormalizeFacts.single_spaced_infix l _ r). rewrite <- Hu.
    apply (NormalizeFacts.spaced_single false), NormalizeFacts.sub_spaces_spaced.
  - assert (Forall (λ c, c = 32%N ∨ (is_word unicode_isalnum c = true
                                     ∧ Str.isspace c = false)) u) as Hall.
    { apply NormalizeFacts.sub_spaces_chars; [by left|].
      apply Forall_forall. intros c Hc Hsp. right. split; [|done].
      apply list_elem_of_filter in Hc as [Hc _]. by rewrite Hsp, orb_false_r in Hc. }
    rewrite Hu in Hall. apply Forall_app in Hall as [_ Hall].
    by apply Forall_app in Hall as [Hall _].
Qed.

(** ** What a computation adds to the world *)

Section Adds.

Context (P : Event → Prop).

Lemma adds_ret {A} (a : A) : adds P (mret a).
Proof. intros w. split; [done|]. exists []. by rewrite app_nil_r. Qed.

Lemma adds_raise {A} e : adds P (raise (A:=A) e).
Proof. intros w. split; [done|]. exists []. by rewrite app_nil_r. Qed.

Lemma adds_emit e : P e → adds P (emit e).
Proof. intros He w. split; [done|]. exists [e]. split; [done|]. by constructor. Qed.

Lemma adds_bind {A B} (m : M A) (f : A → M B) :
  adds P m → (∀ a, adds P (f a)) → adds P (m ≫= f).
Proof.
  intros Hm Hf w. unfold mbind, M_bind.
  destruct (Hm w) as (Hfs & added & Htr & Hall).
  destruct (m w) as [[a|e] w1]; simpl in *.
  - destruct (Hf a w1) as (Hfs' & added' & Htr' & Hall').
    split; [congruence|]. exists (added ++ added').
    split; [by rewrite Htr', Htr, app_assoc|by apply Forall_app].
  - split; [done|]. by exists added.
Qed.

Lemma adds_try_except {A} (body : M A) handler :
  adds P body → (∀ e, adds P (handler e)) → adds P (try_except body handler).
Proof.
  intros Hb Hh w. unfold try_except.
  destruct (Hb w) as (Hfs & added & Htr & Hall).
  destruct (body w) as [[a|[k|c]] w1]; simpl in *.
  - split; [done|]. by exists added.
  - destruct (Hh k w1) as (Hfs' & added' & Htr' & Hall').
    split; [congruence|]. exists (added ++ added').
    split; [by rewrite Htr', Htr, app_assoc|by apply Forall_app].
  - split; [done|]. by exists added.
Qed.

Lemma adds_when c m : adds P m → adds P (when c m).
Proof. intros. destruct c; [done|apply adds_ret]. Qed.

Lemma adds_lift_exc {A} (r : exc_kind + A) : adds P (lift_exc r).
Proof. destruct r; [apply adds_raise|apply adds_ret]. Qed.

Lemma adds_py_get v k : adds P (py_get v k).
Proof. destruct v; first [apply adds_raise|apply adds_ret]. Qed.

Lemma adds_py_len v : adds P (py_len v).
Proof. destruct v; first [apply adds_raise|apply adds_ret]. Qed.

Lemma adds_py_item0 v : adds P (py_item0 v).
Proof. destruct v as [| | | |[]|[]|]; first [apply adds_raise|apply adds_ret]. Qed.

Lemma adds_py_slice3 v : adds P (py_slice3 v).
Proof. destruct v; first [apply adds_raise|apply adds_ret]. Qed.

Lemma adds_list_item {A} (l : list A) i : adds P (list_item l i).
Proof. unfold list_item. destruct (l !! i); [apply adds_ret|apply adds_raise]. Qed.

Lemma adds_with_suffix p s : adds P (with_suffix p s).
Proof. unfold with_suffix. destruct (Path.with_suffix p s); [apply adds_ret|apply adds_raise]. Qed.

Lemma adds_path_exists p : adds P (path_exists p).
Proof. intros w. split; [done|]. exists []. by rewrite app_nil_r. Qed.

Lemma adds_global {A} name (b : option A) : adds P (global name b).
Proof. destruct b; [apply adds_ret|apply adds_raise]. Qed.

End Adds.

Create HintDb adds discriminated.
#[export] Hint Resolve adds_ret adds_raise adds_when adds_lift_exc adds_py_get
  adds_py_len adds_py_item0 adds_py_slice3 adds_list_item adds_with_suffix
  adds_path_exists adds_global : adds.

Lemma adds_print_any (P : Event → Prop) m : P (EvPrint m) → adds P (print m).
Proof. apply adds_emit. Qed.

Lemma adds_print_formatted (P : Event → Prop) vs m :
  P (EvPrint m) → adds P (print_formatted vs m).
Proof.
  intros. unfold print_formatted.
  destruct (forallb _ _); [by apply adds_print_any|apply adds_raise].
Qed.

Ltac adds_tac :=
  repeat first
    [ progress eauto with adds
    | apply adds_print_any; done
    | apply adds_print_formatted; done
    | apply adds_emit; done
    | apply adds_bind; [|intros ?]
    | apply adds_when
    | apply adds_try_except; [|intros ?]
    | match goal with
      | |- adds _ (if ?b then _ else _) => destruct b
      | |- adds _ (match ?x with _ => _ end) => destruct x
      end ].

Lemma adds_debug_results l i : adds (λ e, is_print e = true) (debug_results i l).
Proof. revert i. induction l; intros i; simpl; adds_tac. Qed.

#[export] Hint Resolve adds_debug_results : adds.

Lemma adds_get_lrc_from_result r d :
  adds (λ e, is_print e = true) (get_lrc_from_result r d).
Proof. unfold get_lrc_from_result. adds_tac. Qed.

Lemma calls_prints added :
  Forall (λ e, is_print e = true) added → calls added = [].
Proof.
  intros H. unfold calls. induction H as [|e l He _ IH]; [done|].
  rewrite filter_cons_False; [done|]. by rewrite He.
Qed.

(** ** [get_lrc_from_result], beyond objects with string fields *)

(** X16.  [get_lrc_from_result] never raises, and what it returns depends
    on the result alone, not on the debug flag; for a result that is no
    JSON object it returns [None]. *)
Theorem get_lrc_from_result_total (result : PyVal) :
  ∃ v, (∀ debug w, (get_lrc_from_result result debug w).1 = Ok v) ∧
       (is_dict result = false → v = PyNone).
Proof.
  unfold get_lrc_from_result, try_except.
  destruct result as [|b|z|q|s|l|d].
  7: {
    destruct (truthy (PyDict d)) eqn:Hd.
    - destruct (truthy (default PyNone (d !! lit "syncedLyrics"))) eqn:Hs.
      + exists (default PyNone (d !! lit "syncedLyrics")).
        split; [|done]. intros debug w. munfold.
        simpl. rewrite Hs. by destruct debug.
      + destruct (truthy (default PyNone (d !! lit "plainLyrics"))) eqn:Hp.
        * exists (default PyNone (d !! lit "plainLyrics")).
          split; [|done]. intros debug w. munfold.
          simpl. rewrite Hs, Hp. by destruct debug.
        * exists PyNone. split; [|done]. intros debug w. munfold.
          simpl. rewrite Hs, Hp. by destruct debug.
    - exists PyNone. split; [|done]. intros debug w. by munfold. }
  all: exists PyNone; split; [|done]; intros debug w; munfold;
    destruct (truthy _); simpl; by destruct debug.
Qed.

Lemma get_lrc_from_result_total_run :
  (get_lrc_from_result (PyList [PyDict Run.both_lyrics]) true Run.start).1
    = Ok PyNone.
Proof.
  destruct (get_lrc_from_result_total (PyList [PyDict Run.both_lyrics]))
    as (v & Hv & Hnone).
  rewrite Hv. f_equal. apply Hnone. reflexivity.
Defined.

(** X17.  The synced lyrics are not checked for being a string: whatever
    value the field holds comes back as it is, provided it is true
    (a non-zero number, a non-empty list, ...). *)
Theorem get_lrc_from_result_any_synced (d : gmap pystr PyVal) (v : PyVal)
    (debug : bool) (w : World) :
  d !! lit "syncedLyrics" = Some v → truthy v = true →
  (get_lrc_from_result (PyDict d) debug w).1 = Ok v.
Proof.
  intros Hv Ht. unfold get_lrc_from_result, try_except.
  rewrite (truthy_dict_lookup _ _ _ Hv). munfold. simpl. rewrite Hv. simpl.
  rewrite Ht. by destruct debug.
Qed.

Lemma get_lrc_from_result_any_synced_run :
  (get_lrc_from_result (PyDict Case.numbered) false Run.start).1 = Ok (PyInt 5).
Proof.
  apply (get_lrc_from_result_any_synced Case.numbered (PyInt 5) false Run.start).
  - vm_compute. reflexivity.
  - reflexivity.
Defined.

(** ** [search_lrclib]: what it does to the world, and odd bodies *)

Lemma try_except_after {A B} (pre : M A) (rest : A → M B) handler w a w1 :
  pre w = (Ok a, w1) →
  try_except (pre ≫= rest) handler w = try_except (rest a) handler w1.
Proof. intros H. unfold try_except, mbind, M_bind. by rewrite H. Qed.

(** X14.  Every call of [search_lrclib] sleeps for half a second and then
    sends one request, with the artist and the title it was given; it does
    nothing else to the outside world, whatever the answer and the debug
    flag, and changes no file. *)
Theorem search_lrclib_one_request (env : Env) (artist title : pystr)
    (debug : bool) (w : World) :
  let w' := (search_lrclib env artist title debug w).2 in
  fs w' = fs w ∧
  ∃ added, trace w' = trace w ++ added ∧
           calls added = [EvSleep (1 # 2); EvHttpGet search_url artist title].
Proof.
  cbv zeta. unfold search_lrclib. fold search_url.
  set (handler := λ e : exc_kind, _).
  assert (∀ e, adds (λ e, is_print e = true) (handler e)) as Hh.
  { intros e. unfold handler. adds_tac. }
  assert (∀ rest : M PyVal, adds (λ e, is_print e = true) rest →
          ∀ w0 pre, Forall (λ e, is_print e = true) pre →
          trace w0 = trace w ++ pre ++ [EvSleep (1 # 2); EvHttpGet search_url artist title] →
          fs w0 = fs w →
          fs (try_except rest handler w0).2 = fs w ∧
          ∃ added, trace (try_except rest handler w0).2 = trace w ++ added ∧
                   calls added = [EvSleep (1 # 2); EvHttpGet search_url artist title])
    as Hrest.
  { intros rest Hr w0 pre Hpre Htr Hfs.
    destruct (adds_try_except _ rest handler Hr Hh w0) as (Hfs' & added & Htr' & Hall).
    split; [congruence|].
    exists (pre ++ [EvSleep (1 # 2); EvHttpGet search_url artist title] ++ added).
    split; [by rewrite Htr', Htr, <- !app_assoc|].
    unfold calls. rewrite !filter_app.
    fold (calls pre). fold (calls added).
    rewrite (calls_prints pre Hpre), (calls_prints added Hall). reflexivity. }
  destruct debug.
  - erewrite try_except_after; [|reflexivity].
    erewrite try_except_after; [|reflexivity].
    erewrite try_except_after; [|reflexivity].
    apply Hrest with (pre := [EvPrint (DbgApiUrl search_url);
                              EvPrint (DbgParams artist title)]).
    + adds_tac.
    + by repeat constructor.
    + simpl. by rewrite <- !app_assoc.
    + done.
  - erewrite try_except_after; [|reflexivity].
    erewrite try_except_after; [|reflexivity].
    erewrite try_except_after; [|reflexivity].
    apply Hrest with (pre := []).
    + adds_tac.
    + constructor.
    + simpl. by rewrite <- !app_assoc.
    + done.
Qed.

(** X15.  A 200 answer whose body is not an array: for [null], a boolean,
    a number or an object, [search_lrclib] returns [None]; for a non-empty
    string it returns the first character of the string, or [None] when
    the debug flag is on. *)
Theorem search_lrclib_not_an_array (env : Env) (artist title : pystr)
    (debug : bool) (w : World) (r : Response) (body : PyVal) :
  session_get env search_url artist title = inr r →
  status_code r = 200%Z →
  json r = inr body →
  let returned := (search_lrclib env artist title debug w).1 in
  match body with
  | PyList _ => True
  | PyStr (c :: _) => returned = if debug then Ok PyNone else Ok (PyStr [c])
  | _ => returned = Ok PyNone
  end.
Proof.
  intros Hr Hs Hj. cbv zeta. unfold search_lrclib, try_except. fold search_url.
  destruct body as [|b|z|q|[|c s]|l|d]; [| | | | | |done|];
    munfold; destruct debug; simpl; rewrite Hr; simpl; rewrite Hs; simpl;
    rewrite Hj; simpl; try done;
    repeat (match goal with
            | |- context [if ?b then _ else _] => destruct b eqn:?
            | |- context [negb ?b] => destruct b eqn:?
            end; simpl; try done).
Qed.

Lemma search_lrclib_not_an_array_run :
  (search_lrclib (Run.answering (inr (mkResponse 200 (inr (PyStr (lit "oops"))))))
     (lit "A") (lit "B") false Run.start).1 = Ok (PyStr (lit "o")).
Proof.
  exact (search_lrclib_not_an_array
           (Run.answering (inr (mkResponse 200 (inr (PyStr (lit "oops"))))))
           (lit "A") (lit "B") false Run.start
           (mkResponse 200 (inr (PyStr (lit "oops")))) (PyStr (lit "oops"))
           eq_refl eq_refl eq_refl).
Defined.

(** ** [get_mp3_metadata]: the tags *)

Lemma size_lookup {V} (t : gmap pystr V) k v :
  t !! k = Some v → bool_decide (size t = 0) = false.
Proof.
  intros Hk. apply bool_decide_eq_false. intros Hsz.
  apply map_size_empty_iff in Hsz. subst t. by rewrite lookup_empty in Hk.
Qed.


(** X10.  When the tags hold a non-empty title and a non-empty artist, the
    artist being [TPE1], or [TPE2] if there is no [TPE1], these two come
    back and the file name plays no part. *)
Theorem get_mp3_metadata_from_tags (env : Env) (file_path : pystr) (w : World)
    (t : gmap pystr pystr) (artist title : pystr) :
  mutagen_MP3 env file_path = inr (Some t) →
  t !! lit "TPE1" = Some artist ∨
    (t !! lit "TPE1" = None ∧ t !! lit "TPE2" = Some artist) →
  artist ≠ [] →
  t !! lit "TIT2" = Some title →
  title ≠ [] →
  (get_mp3_metadata env file_path w).1 = Ok (Some artist, Some title).
Proof.
  intros Htags Ha Hane Ht Htne.
  unfold get_mp3_metadata, try_except, MP3. munfold. rewrite Htags. simpl.
  rewrite (size_lookup _ _ _ Ht). rewrite Ht.
  assert (match t !! lit "TPE1" with
          | Some a => Some a
          | None => t !! lit "TPE2"
          end = Some artist) as ->.
  { destruct Ha as [->|[-> ->]]; done. }
  unfold no_metadata. by destruct artist, title.
Qed.

Lemma get_mp3_metadata_from_tags_run :
  (get_mp3_metadata Case.tagged (lit "music/track01.mp3") Run.start).1 =
    Ok (Some (lit "The Band"), Some (lit "Song X")).
Proof.
  apply (get_mp3_metadata_from_tags Case.tagged (lit "music/track01.mp3")
           Run.start Case.album_tags (lit "The Band") (lit "Song X")).
  - reflexivity.
  - right. split; vm_compute; reflexivity.
  - discriminate.
  - vm_compute. reflexivity.
  - discriminate.
Defined.

(** X11.  When one of artist and title is missing from the tags and the
    stem of the file name splits at [" - "], the one the tags give is
    kept and only the missing one is taken, stripped, from its side of
    the file name. *)
Theorem get_mp3_metadata_fills_the_gap (env : Env) (file_path : pystr) (w : World)
    (tags : option (gmap pystr pystr)) (a b : pystr) :
  mutagen_MP3 env file_path = inr tags →
  first_split (lit " - ") (Path.stem file_path) a b →
  let tag_artist := (tags_artist_title tags).1 in
  let tag_title := (tags_artist_title tags).2 in
  no_metadata tag_artist tag_title = true →
  (get_mp3_metadata env file_path w).1 =
    Ok (if truthy_str tag_artist then tag_artist else Some (Str.strip a),
        if truthy_str tag_title then tag_title else Some (Str.strip b)).
Proof.
  intros Htags Hab. cbv zeta.
  unfold get_mp3_metadata, try_except, MP3. munfold. rewrite Htags. simpl.
  destruct (tags_artist_title tags) as [a0 t0]. simpl. intros ->.
  rewrite (StrFacts.contains_first_split _ _ _ _ Hab).
  rewrite (StrFacts.split1_first_split _ _ _ _ Hab).
  by destruct (truthy_str a0), (truthy_str t0).
Qed.

Lemma get_mp3_metadata_fills_the_gap_run :
  (get_mp3_metadata Case.title_only (lit "music/A - B.mp3") Run.start).1 =
    Ok (Some (lit "A"), Some (lit "Song X")).
Proof.
  apply (get_mp3_metadata_fills_the_gap Case.title_only (lit "music/A - B.mp3")
           Run.start (Some Case.title_tag) (lit "A") (lit "B")).
  - reflexivity.
  - apply (StrFacts.first_split_of_find (lit " - ") (lit "A - B") 1). reflexivity.
  - vm_compute. reflexivity.
Defined.

(** X12.  An empty [TPE1] frame hides [TPE2] and, when the file name has no
    [" - "], the title tag as well: the artist is ["Unknown"] and the title
    is the stem, whatever [TPE2] and [TIT2] hold. *)
Theorem get_mp3_metadata_empty_TPE1 (env : Env) (file_path : pystr) (w : World)
    (t : gmap pystr pystr) :
  mutagen_MP3 env file_path = inr (Some t) →
  t !! lit "TPE1" = Some [] →
  no_separator (lit " - ") (Path.stem file_path) →
  (get_mp3_metadata env file_path w).1 =
    Ok (Some (lit "Unknown"), Some (Path.stem file_path)).
Proof.
  intros Htags H1 Hno.
  unfold get_mp3_metadata, try_except, MP3. munfold. rewrite Htags. simpl.
  rewrite (size_lookup _ _ _ H1). rewrite H1.
  unfold no_metadata. simpl.
  apply StrFacts.contains_false in Hno. by rewrite Hno.
Qed.

Lemma get_mp3_metadata_empty_TPE1_run :
  (get_mp3_metadata Case.empty_artist (lit "music/track01.mp3") Run.start).1 =
    Ok (Some (lit "Unknown"), Some (lit "track01")).
Proof.
  apply (get_mp3_metadata_empty_TPE1 Case.empty_artist (lit "music/track01.mp3")
           Run.start Case.empty_artist_tags).
  - reflexivity.
  - vm_compute. reflexivity.
  - apply StrFacts.contains_false. reflexivity.
Defined.

(** ** [save_lrc_file] *)

(** X7.  When the file opens and the write goes through, [save_lrc_file]
    returns [True], prints nothing, and the lyric file holds exactly the
    text: what was in it before is replaced, nothing is appended, and no
    other file changes. *)
Theorem save_lrc_file_writes (env : Env) (mp3_path lrc_path s : pystr) (w : World) :
  Path.with_suffix mp3_path (lit ".lrc") = Some lrc_path →
  io_open env lrc_path = None →
  io_write env lrc_path s = None →
  save_lrc_file env mp3_path (PyStr s) w =
    (Ok true, mkWorld (<[lrc_path := s]> (fs w)) (trace w)).
Proof.
  intros Hlrc Ho Hw. unfold save_lrc_file, try_except, open_w, write_close.
  munfold. rewrite Hlrc. simpl. rewrite Ho, Hw. simpl.
  by rewrite insert_insert_eq.
Qed.

Lemma save_lrc_file_writes_run :
  save_lrc_file Run.two_tracks (lit "music/A - B.mp3") (PyStr (lit "new"))
                Run.with_lyrics =
    (Ok true, mkWorld {[ lit "music/A - B.lrc" := lit "new" ]} []).
Proof.
  rewrite (save_lrc_file_writes Run.two_tracks (lit "music/A - B.mp3")
             (lit "music/A - B.lrc") (lit "new") Run.with_lyrics
             eq_refl eq_refl eq_refl).
  vm_compute. reflexivity.
Defined.



(** X9.  Once the file is open, a failed write costs the old content: for
    a content that is no [str] the lyric file is left empty, for a write
    that breaks off it holds what got through; in both cases
    [save_lrc_file] prints the error and returns [False]. *)
Theorem save_lrc_file_failed_write (env : Env) (mp3_path lrc_path : pystr)
    (lrc_content : PyVal) (w : World) :
  Path.with_suffix mp3_path (lit ".lrc") = Some lrc_path →
  io_open env lrc_path = None →
  let run := save_lrc_file env mp3_path lrc_content w in
  match lrc_content with
  | PyStr s =>
      ∀ written e, io_write env lrc_path s = Some (written, e) →
        run.1 = Ok false ∧ fs run.2 !! lrc_path = Some written ∧
        trace run.2 = trace w ++ [EvPrint (MsgSaveError lrc_path e)]
  | _ =>
      run.1 = Ok false ∧ fs run.2 !! lrc_path = Some [] ∧
      trace run.2 = trace w ++ [EvPrint (MsgSaveError lrc_path TypeError)]
  end.
Proof.
  intros Hlrc Ho. cbv zeta.
  unfold save_lrc_file, try_except, open_w, write_close.
  munfold. rewrite Hlrc. simpl. rewrite Ho. simpl.
  destruct lrc_content as [|b|z|q|s|l|d]; simpl;
    try (split_and!; [done|by rewrite lookup_insert_eq|done]).
  intros written e ->. simpl. split_and!; [done| |done].
  by rewrite lookup_insert_eq.
Qed.

Lemma save_lrc_file_failed_write_run :
  (save_lrc_file Run.two_tracks (lit "music/A - B.mp3") (PyInt 5)
     Run.with_lyrics).1 = Ok false ∧
  fs (save_lrc_file Run.two_tracks (lit "music/A - B.mp3") (PyInt 5)
        Run.with_lyrics).2 !! lit "music/A - B.lrc" = Some [].
Proof.
  destruct (save_lrc_file_failed_write Run.two_tracks (lit "music/A - B.mp3")
              (lit "music/A - B.lrc") (PyInt 5) Run.with_lyrics eq_refl eq_refl)
    as (H1 & H2 & _).
  by split.
Defined.

(** ** [process_mp3_file] and the loop, whatever the two names are bound to *)

Lemma get_mp3_metadata_world (env : Env) (file_path : pystr) (w w' : World) :
  (get_mp3_metadata env file_path w).1 = (get_mp3_metadata env file_path w').1 ∧
  fs (get_mp3_metadata env file_path w).2 = fs w ∧
  ∃ added, trace (get_mp3_metadata env file_path w).2 = trace w ++ added ∧
           calls added = [EvReadTags file_path].
Proof.
  unfold get_mp3_metadata, try_except, MP3. munfold.
  destruct (mutagen_MP3 env file_path) as [e|tags]; simpl.
  - split_and!; [done|done|]. eexists. split; [by rewrite <- app_assoc|done].
  - destruct (tags_artist_title tags) as [a0 t0].
    destruct (no_metadata a0 t0); [|split_and!; [done|done|by eexists]].
    destruct (Str.contains _ _) eqn:Hc; [|split_and!; [done|done|by eexists]].
    destruct (StrFacts.contains_true _ _ Hc) as (a & b & Hab).
    rewrite (StrFacts.split1_first_split _ _ _ _ Hab).
    destruct (truthy_str a0), (truthy_str t0); simpl;
      (split_and!; [done|done|by eexists]).
Qed.

(** X18.  A track without usable metadata, not skipped, is counted as
    failed and as nothing else, whatever the two global names are bound
    to: the iteration reads the tags, sends no request, and changes no
    file. *)
Theorem no_metadata_counted_as_failed (env : Env) (G : Globals)
    (mp3_path lrc_path : pystr) (skip debug : bool) (total i : nat)
    (c : Counts) (w : World) (artist title : option pystr) :
  Path.with_suffix mp3_path (lit ".lrc") = Some lrc_path →
  skip = false ∨ fs w !! lrc_path = None →
  (get_mp3_metadata env mp3_path w).1 = Ok (artist, title) →
  no_metadata artist title = true →
  let run := loop_body env G skip debug total c i mp3_path w in
  run.1 = Ok (mkCounts (success_count c) (skip_count c) (fail_count c + 1)) ∧
  fs run.2 = fs w ∧
  ∃ added, trace run.2 = trace w ++ added ∧ calls added = [EvReadTags mp3_path].
Proof.
  intros Hlrc Hskip Hmeta Hno. cbv zeta.
  unfold loop_body, process_mp3_file. munfold. rewrite Hlrc. simpl.
  assert (skip && bool_decide (is_Some (fs w !! lrc_path)) = false) as Hex.
  { destruct Hskip as [->|Hnone]; [done|]. rewrite Hnone.
    rewrite bool_decide_eq_false_2; [by destruct skip|]. by intros [? ?]. }
  assert (∀ w0, fs w0 = fs w →
          ∃ w2 added, get_mp3_metadata env mp3_path w0 = (Ok (artist, title), w2) ∧
                      fs w2 = fs w ∧ trace w2 = trace w0 ++ added ∧
                      calls added = [EvReadTags mp3_path]) as Hget.
  { intros w0 Hw0.
    destruct (get_mp3_metadata_world env mp3_path w0 w)
      as (Hsame & Hfs & added & Htr & Hcalls).
    rewrite Hmeta in Hsame.
    destruct (get_mp3_metadata env mp3_path w0) as [r w2]. simpl in *. subst r.
    exists w2, added. split_and!; [done|congruence|done|done]. }
  destruct skip; simpl in *.
  - rewrite Hex. simpl.
    edestruct Hget as (w2 & added & -> & Hfs & Htr & Hcalls); [done|].
    simpl. rewrite Hno. simpl. rewrite Hfs, Hex. simpl.
    split_and!; [done|done|].
    eexists. split; [rewrite Htr; simpl; by rewrite <- !app_assoc|].
    unfold calls in *. by rewrite !filter_app, Hcalls.
  - edestruct Hget as (w2 & added & -> & Hfs & Htr & Hcalls); [done|].
    simpl. rewrite Hno. simpl. rewrite andb_false_r.
    split_and!; [done|done|].
    eexists. split; [rewrite Htr; simpl; by rewrite <- !app_assoc|].
    unfold calls in *. by rewrite !filter_app, Hcalls.
Qed.

Lemma no_metadata_counted_as_failed_run :
  (loop_body Run.blank_artist module_globals true false 1 (mkCounts 0 0 0) 1
     (lit "music/ - B.mp3") Run.start).1 = Ok (mkCounts 0 0 1).
Proof.
  apply (no_metadata_counted_as_failed Run.blank_artist module_globals
           (lit "music/ - B.mp3") (lit "music/ - B.lrc") true false 1 1
           (mkCounts 0 0 0) Run.start (Some []) (Some (lit "B"))).
  - reflexivity.
  - right. reflexivity.
  - vm_compute. reflexivity.
  - reflexivity.
Defined.

Lemma adds_raise_bind (P : Event → Prop) {A B} e (f : A → M B) :
  adds P (raise e ≫= f).
Proof. intros w. split; [done|]. exists []. by rewrite app_nil_r. Qed.

Ltac local_tac :=
  repeat first
    [ apply adds_raise_bind
    | progress eauto with adds
    | apply adds_print_any; done
    | apply adds_emit; done
    | apply adds_bind; [|intros ?]
    | apply adds_when
    | apply adds_try_except; [|intros ?]
    | match goal with
      | |- adds _ (if ?b then _ else _) => destruct b
      | |- adds _ (let '(_, _) := ?x in _) => destruct x
      | |- adds _ (match ?x with _ => _ end) => destruct x
      end ].

Lemma adds_get_mp3_metadata env p :
  adds (λ e, is_local e = true) (get_mp3_metadata env p).
Proof.
  unfold get_mp3_metadata, MP3.
  apply adds_try_except; [|intros e; local_tac].
  apply adds_bind; [local_tac|]. intros tags.
  destruct (tags_artist_title tags) as [a t]. local_tac.
Qed.
#[export] Hint Resolve adds_get_mp3_metadata : adds.

Lemma adds_process_mp3_file_shipped env p skip debug :
  adds (λ e, is_local e = true) (process_mp3_file env module_globals p skip debug).
Proof. unfold process_mp3_file, module_globals, global. simpl. local_tac. Qed.
#[export] Hint Resolve adds_process_mp3_file_shipped : adds.

Lemma adds_loop_shipped env skip debug total files c i :
  adds (λ e, is_local e = true) (loop env module_globals skip debug total c i files).
Proof.
  revert c i. induction files as [|p files IH]; intros c i; simpl.
  - apply adds_ret.
  - apply adds_bind; [|intros c'; apply IH].
    unfold loop_body. local_tac.
Qed.
#[export] Hint Resolve adds_loop_shipped : adds.

(** X19.  In the file as it is, with the two names unbound, no run of
    [main] creates or changes a file or sends a request, whatever the
    arguments, the directory and the service: all it does is print, walk
    the directory and read tags. *)
Theorem shipped_main_writes_nothing (env : Env) (argv : list pystr) (w : World) :
  let w' := (main env module_globals argv w).2 in
  fs w' = fs w ∧
  ∃ added, trace w' = trace w ++ added ∧
           Forall (λ e, is_local e = true) added.
Proof.
  cbv zeta.
  assert (adds (λ e, is_local e = true) (main env module_globals argv)) as H.
  { unfold main, find_mp3_files, print_summary, sys_exit. local_tac. }
  apply H.
Qed.

(** X21.  With [--force], no track is counted as skipped: when the loop
    gets to its end the skip counter is where it started, whatever the two
    global names are bound to. *)
Theorem force_never_skips (env : Env) (G : Globals) (debug : bool) (total : nat)
    (mp3_files : list pystr) (i : nat) (c c' : Counts) (w w' : World) :
  loop env G false debug total c i mp3_files w = (Ok c', w') →
  skip_count c' = skip_count c.
Proof.
  revert i c w. induction mp3_files as [|p files IH]; intros i c w; simpl.
  - by intros [= <- _].
  - unfold mbind, M_bind.
    destruct (loop_body _ _ _ _ _ _ _ _ _) as [[c1|e] w1] eqn:Hb; [|done].
    intros Hl. apply IH in Hl. rewrite Hl. clear Hl.
    unfold loop_body in Hb. munfold. simpl in Hb.
    destruct (process_mp3_file _ _ _ _ _ _) as [ [ [ | ] | e ] w2 ]; [| |done].
    + by injection Hb as <- _.
    + destruct (Path.with_suffix _ _); [|done]. simpl in Hb.
      rewrite andb_false_r in Hb. by injection Hb as <- _.
Qed.

Lemma force_never_skips_run :
  skip_count (mkCounts 0 0 1) = skip_count (mkCounts 0 0 0).
Proof.
  apply (force_never_skips Run.blank_artist module_globals false 1
           [lit "music/ - B.mp3"] 1 (mkCounts 0 0 0) (mkCounts 0 0 1)
           Run.with_lyrics
           (mkWorld (fs Run.with_lyrics)
              [EvPrint (MsgIndex 1 1);
               EvPrint (MsgProcessing (lit " - B.mp3"));
               EvReadTags (lit "music/ - B.mp3");
               EvPrint (MsgNoMetadata (lit " - B.mp3"))])).
  vm_compute. reflexivity.
Defined.

(** X22.  When the loop gets to its end, every file has been counted
    once: the three counters together have grown by the number of files,
    and none of them has gone down. *)
Theorem loop_counts_each_file_once (env : Env) (G : Globals) (skip debug : bool)
    (total : nat) (mp3_files : list pystr) (i : nat) (c c' : Counts) (w w' : World) :
  loop env G skip debug total c i mp3_files w = (Ok c', w') →
  counted c' = counted c + length mp3_files ∧
  success_count c ≤ success_count c' ∧
  skip_count c ≤ skip_count c' ∧
  fail_count c ≤ fail_count c'.
Proof.
  intros Hl. split; [by eapply loop_counted|].
  revert i c w Hl. induction mp3_files as [|p files IH]; intros i c w; simpl.
  - intros [= <- _]. lia.
  - unfold mbind, M_bind.
    destruct (loop_body _ _ _ _ _ _ _ _ _) as [[c1|e] w1] eqn:Hb; [|done].
    intros Hl. apply IH in Hl.
    apply loop_body_one_counter in Hb as [ -> | [ -> | -> ] ]; simpl in Hl; lia.
Qed.

Lemma loop_counts_each_file_once_run :
  counted (mkCounts 0 2 0) = counted (mkCounts 0 0 0) + 2.
Proof.
  eapply (loop_counts_each_file_once Run.two_tracks module_globals true false 2
            [lit "music/A - B.mp3"; lit "music/C - D.MP3"] 1
            (mkCounts 0 0 0) (mkCounts 0 2 0) Run.both_there).
  vm_compute. reflexivity.
Defined.

Section Bound.

Context (env : Env) (G : Globals).
Context (f : option pystr → option pystr → bool → M PyVal).
Context (g : PyVal → bool → M PyVal).
Hypothesis Hf : get_lyrics_link G = Some f.
Hypothesis Hg : get_lrc_content G = Some g.
Hypothesis f_returns : ∀ artist title debug, returns (f artist title debug).
Hypothesis g_returns : ∀ link debug, returns (g link debug).

Lemma returns_process_mp3_file_bound p skip debug :
  is_Some (Path.with_suffix p (lit ".lrc")) →
  returns (process_mp3_file env G p skip debug).
Proof using Hf Hg f_returns g_returns.
  intros Hp. pose proof Hp as [lrc Hlrc].
  unfold process_mp3_file, with_suffix, global. rewrite Hf, Hg, Hlrc.
  returns_tac.
Qed.

Lemma returns_loop_bound files skip debug total c i :
  Forall (λ p, is_Some (Path.with_suffix p (lit ".lrc"))) files →
  returns (loop env G skip debug total c i files).
Proof using Hf Hg f_returns g_returns.
  intros Hfiles. revert c i.
  induction Hfiles as [|p files Hp _ IH]; intros c i; simpl.
  - apply returns_ret.
  - apply returns_bind; [|intros c'; apply IH].
    pose proof Hp as [lrc Hlrc]. unfold loop_body.
    apply returns_bind; [returns_tac|]. intros _.
    apply returns_bind; [by apply returns_process_mp3_file_bound|]. intros b.
    unfold with_suffix. rewrite Hlrc. returns_tac.
Qed.

End Bound.

(** X23.  No error of the tag reader, of [open] or of a write stops the
    batch: each is raised inside the [try] of the function that makes the
    call.  So when the two global names are bound to functions that
    return, then whatever the tag reader, [open] and the writes do, [main]
    goes through every file found, prints the summary and returns, and
    the three counts add up to the number of files.  [search_lrclib] and
    [get_lrc_from_result] are such functions, whatever the session and
    the JSON decoder do.  Printing and [Path.exists] are taken to succeed,
    as [print] and [path_exists] say; the statement is not about them. *)
Theorem main_completes_when_helpers_return (env : Env) (G : Globals)
    (f : option pystr → option pystr → bool → M PyVal)
    (g : PyVal → bool → M PyVal)
    (argv : list pystr) (w : World) (music_folder : pystr) :
  get_lyrics_link G = Some f →
  get_lrc_content G = Some g →
  (∀ artist title debug, returns (f artist title debug)) →
  (∀ link debug, returns (g link debug)) →
  argv !! 1 = Some music_folder →
  os_path_isdir env music_folder = true →
  mp3_paths (os_walk env music_folder) ≠ [] →
  let total := length (mp3_paths (os_walk env music_folder)) in
  ∃ c w1,
    main env G argv w = (Ok tt, mkWorld (fs w1) (trace w1 ++ summary c total)) ∧
    counted c = total.
Proof.
  intros Hf Hg Hfr Hgr Hd Hdir Hne total.
  destruct (returns_loop_bound env G f g Hf Hg Hfr Hgr
              (mp3_paths (os_walk env music_folder))
              (negb (bool_decide (lit "--force" ∈ argv)))
              (bool_decide (lit "--debug" ∈ argv)) total (mkCounts 0 0 0) 1)
    with (w := scanned w (bool_decide (lit "--debug" ∈ argv)) music_folder total)
    as (c & w1 & Hloop).
  { apply Forall_forall. intros p Hp. by eapply PathFacts.mp3_paths_with_suffix. }
  exists c, w1. split.
  - by eapply main_after_loop.
  - apply loop_counted in Hloop. unfold counted in *. simpl in Hloop. lia.
Qed.

Lemma main_completes_when_helpers_return_run :
  ∃ c w1,
    main Run.disk_full (bound_globals Run.disk_full) Run.argv Run.start =
      (Ok tt, mkWorld (fs w1) (trace w1 ++ summary c 1)) ∧
    counted c = 1.
Proof.
  apply (main_completes_when_helpers_return Run.disk_full
           (bound_globals Run.disk_full) _ _ Run.argv Run.start (lit "music")
           eq_refl eq_refl).
  - intros artist title debug. apply returns_search_lrclib.
  - intros link debug. apply returns_get_lrc_from_result.
  - reflexivity.
  - reflexivity.
  - discriminate.
Defined.

(** X24.  The way to a saved lyric file: for a track that is not skipped,
    with an artist and a title, when the first global call returns a true
    link, the second a non-empty text for it, and the file opens and the
    write goes through, [process_mp3_file] returns [True], the lyric file
    holds that text, and the last line printed names the file. *)
Theorem process_mp3_file_saves (env : Env) (G : Globals)
    (f : option pystr → option pystr → bool → M PyVal)
    (g : PyVal → bool → M PyVal)
    (mp3_path lrc_path : pystr) (skip debug : bool)
    (artist title : option pystr) (link : PyVal) (s : pystr)
    (w w1 w2 w3 : World) :
  Path.with_suffix mp3_path (lit ".lrc") = Some lrc_path →
  skip = false ∨ fs w !! lrc_path = None →
  get_lyrics_link G = Some f →
  get_lrc_content G = Some g →
  get_mp3_metadata env mp3_path
    (mkWorld (fs w) (trace w ++ [EvPrint (MsgProcessing (Path.name mp3_path))]))
    = (Ok (artist, title), w1) →
  no_metadata artist title = false →
  f artist title debug
    (mkWorld (fs w1) (trace w1 ++ [EvPrint (MsgArtist (default [] artist));
                                    EvPrint (MsgTitle (default [] title));
                                    EvPrint MsgSearching]))
    = (Ok link, w2) →
  truthy link = true →
  g link debug
    (mkWorld (fs w2) (trace w2 ++ [EvPrint (MsgFoundLink link);
                                    EvPrint MsgDownloading]))
    = (Ok (PyStr s), w3) →
  s ≠ [] →
  io_open env lrc_path = None →
  io_write env lrc_path s = None →
  process_mp3_file env G mp3_path skip debug w =
    (Ok true,
     mkWorld (<[lrc_path := s]> (fs w3))
             (trace w3 ++ [EvPrint (MsgSaved (Path.name lrc_path))])).
Proof.
  intros Hlrc Hskip Hf Hg Hmeta Hok Hlink Hl Hcontent Hs Ho Hw.
  unfold process_mp3_file, save_lrc_file, try_except, open_w, write_close.
  munfold. rewrite Hlrc, Hf, Hg. simpl.
  assert (skip && bool_decide (is_Some (fs w !! lrc_path)) = false) as Hex.
  { destruct Hskip as [->|Hnone]; [done|]. rewrite Hnone.
    rewrite bool_decide_eq_false_2; [by destruct skip|]. by intros [? ?]. }
  destruct skip; simpl in *.
  - rewrite Hex. simpl. rewrite Hmeta, Hok. simpl.
    rewrite <- !app_assoc. simpl. rewrite Hlink. simpl. rewrite Hl. simpl.
    rewrite <- !app_assoc. simpl. rewrite Hcontent. simpl.
    rewrite (bool_decide_eq_false_2 _ Hs). simpl. rewrite Ho, Hw. simpl.
    by rewrite insert_insert_eq.
  - rewrite Hmeta, Hok. simpl.
    rewrite <- !app_assoc. simpl. rewrite Hlink. simpl. rewrite Hl. simpl.
    rewrite <- !app_assoc. simpl. rewrite Hcontent. simpl.
    rewrite (bool_decide_eq_false_2 _ Hs). simpl. rewrite Ho, Hw. simpl.
    by rewrite insert_insert_eq.
Qed.

Lemma process_mp3_file_saves_run :
  ∃ w',
    process_mp3_file (Run.answering (inr Run.two_matches))
      (bound_globals (Run.answering (inr Run.two_matches)))
      (lit "music/A - B.mp3") true false Run.start = (Ok true, w') ∧
    fs w' !! lit "music/A - B.lrc" = Some Run.hello.
Proof.
  eexists. split.
  - eapply (process_mp3_file_saves (Run.answering (inr Run.two_matches))
              (bound_globals (Run.answering (inr Run.two_matches)))).
    + reflexivity.
    + right. reflexivity.
    + reflexivity.
    + reflexivity.
    + vm_compute. reflexivity.
    + reflexivity.
    + vm_compute. reflexivity.
    + reflexivity.
    + vm_compute. reflexivity.
    + discriminate.
    + reflexivity.
    + reflexivity.
  - vm_compute. reflexivity.
Defined.

(** ** [find_mp3_files] and the path of the lyric file *)

Module FindFacts.

Lemma rfind_char_None c s : c ∉ s → Str.rfind_char c s = None.
Proof.
  induction s as [|b s IH]; intros Hs; simpl; [done|].
  apply not_elem_of_cons in Hs as [Hb Hs]. rewrite IH by done.
  by rewrite bool_decide_eq_false_2.
Qed.

Lemma rfind_char_last c a b :
  c ∉ b → Str.rfind_char c (a ++ c :: b) = Some (length a).
Proof.
  intros Hb. induction a as [|d a IH]; simpl.
  - rewrite rfind_char_None by done. by rewrite bool_decide_eq_true_2.
  - by rewrite IH.
Qed.

Lemma join_cases a b :
  Str.startswith [Path.slash] b = false →
  Path.join a b = b ∨ ∃ q, Path.join a b = q ++ Path.slash :: b.
Proof.
  intros Hb. unfold Path.join. rewrite Hb.
  destruct (bool_decide (a = [])) eqn:Ha; simpl.
  - apply bool_decide_eq_true in Ha as ->. by left.
  - destruct (Str.endswith [Path.slash] a) eqn:He; [|right; by eexists].
    right. unfold Str.endswith in He.
    apply StrFacts.startswith_inv in He as [t Ht].
    apply (f_equal reverse) in Ht. rewrite reverse_involutive in Ht.
    rewrite reverse_app, reverse_involutive in Ht. subst a.
    exists (reverse t). by rewrite <- app_assoc.
Qed.

Lemma join_prefix a b b' :
  Str.startswith [Path.slash] b = false →
  Str.startswith [Path.slash] b' = false →
  ∃ pre, Path.join a b = pre ++ b ∧ Path.join a b' = pre ++ b'.
Proof.
  intros Hb Hb'. unfold Path.join. rewrite Hb, Hb'.
  destruct (_ || _); [by exists a|].
  exists (a ++ [Path.slash]). by rewrite <- !app_assoc.
Qed.

Lemma startswith_slash base tail :
  base ≠ [] → Path.slash ∉ base →
  Str.startswith [Path.slash] (base ++ tail) = false.
Proof.
  intros Hne Hs. destruct base as [|c base]; [done|]. simpl.
  apply not_elem_of_cons in Hs as [Hc _].
  by rewrite bool_decide_eq_false_2.
Qed.

Lemma name_join root file :
  file ≠ [] → Path.slash ∉ file → Path.name (Path.join root file) = file.
Proof.
  intros Hne Hs.
  assert (Str.startswith [Path.slash] file = false) as Hst.
  { destruct file as [|c file]; [done|]. simpl.
    apply not_elem_of_cons in Hs as [Hc _].
    by rewrite bool_decide_eq_false_2. }
  unfold Path.name.
  destruct (join_cases root file Hst) as [->|[q ->]].
  - by rewrite rfind_char_None.
  - rewrite rfind_char_last by done.
    replace (q ++ Path.slash :: file) with ((q ++ [Path.slash]) ++ file)
      by (by rewrite <- app_assoc).
    apply drop_app_length'. rewrite length_app. simpl. lia.
Qed.

Lemma lower_char_eq c x :
  (x < 65 ∨ 90 < x)%N → Str.lower_char c = x → c = x ∨ (c + 32 = x)%N.
Proof.
  unfold Str.lower_char. destruct (_ && _); intros _ <-; auto.
Qed.

Lemma endswith_mp3 file :
  Str.endswith (lit ".mp3") (Str.lower file) = true ↔ has_mp3_extension file.
Proof.
  unfold Str.endswith, Str.lower. rewrite <- fmap_reverse.
  change (reverse (lit ".mp3")) with [51%N; 112%N; 109%N; 46%N].
  split.
  - intros H. rewrite <- (reverse_involutive file).
    destruct (reverse file) as [ | c3 [ | c2 [ | c1 [ | c0 rest ] ] ] ];
      simpl in H; rewrite ?andb_false_r in H; try done. repeat (apply andb_true_iff in H as [?%bool_decide_eq_true H]).
    exists (reverse rest), c1, c2.
    unfold Str.lower_char in *.
    repeat match goal with
           | H : _ = (if ?b then _ else _) |- _ => destruct b eqn:?
           end;
      repeat match goal with
             | H : (_ && _) = true |- _ => apply andb_true_iff in H as [? ?]
             | H : (_ <=? _)%N = true |- _ => apply N.leb_le in H
             end;
      try lia.
    all: split_and!;
      [rewrite !reverse_cons, <- !app_assoc; simpl;
         repeat f_equal; lia
      |lia|lia].
  - intros (base & m & p & -> & Hm & Hp).
    rewrite reverse_app. simpl.
    destruct Hm as [->| ->], Hp as [->| ->]; done.
Qed.

End FindFacts.

(** X26.  [find_mp3_files] returns the joined paths of exactly the entries
    whose name ends in a dot, [m] or [M], [p] or [P], and [3], and of no
    other entry. *)
Theorem find_mp3_files_finds (walk : list (pystr * list pystr * list pystr))
    (path : pystr) :
  path ∈ mp3_paths walk ↔
  ∃ root dirs files file,
    (root, dirs, files) ∈ walk ∧ file ∈ files ∧
    has_mp3_extension file ∧ path = Path.join root file.
Proof.
  unfold mp3_paths. rewrite list_elem_of_In, in_flat_map. split.
  - intros ([[root dirs] files] & Hw & Hp).
    apply list_elem_of_In, list_elem_of_fmap in Hp as (file & -> & Hfile).
    apply list_elem_of_filter in Hfile as [Hext Hfile].
    exists root, dirs, files, file. split_and!; [by apply list_elem_of_In|done| |done].
    by apply FindFacts.endswith_mp3.
  - intros (root & dirs & files & file & Hw & Hfile & Hext & ->).
    exists (root, dirs, files). split; [by apply list_elem_of_In|].
    apply list_elem_of_In, list_elem_of_fmap. exists file. split; [done|].
    apply list_elem_of_filter. split; [|done]. by apply FindFacts.endswith_mp3.
Qed.

Lemma find_mp3_files_finds_run :
  lit "music/C - D.MP3" ∈ mp3_paths (os_walk Run.two_tracks (lit "music")).
Proof.
  apply (find_mp3_files_finds (os_walk Run.two_tracks (lit "music"))
           (lit "music/C - D.MP3")).
  exists (lit "music"), [], [lit "A - B.mp3"; lit "notes.txt"; lit "C - D.MP3"],
    (lit "C - D.MP3").
  split_and!.
  - decide_now.
  - decide_now.
  - exists (lit "C - D"), 77%N, 80%N. split_and!; [reflexivity|by right|by right].
  - reflexivity.
Defined.

Lemma find_mp3_files_finds_last (walk : list (pystr * list pystr * list pystr))
    (path : pystr) :
  path ∈ mp3_paths walk → last path = Some 51%N.
Proof.
  unfold mp3_paths. intros Hp.
  apply list_elem_of_In, in_flat_map in Hp as ([[root dirs] files] & _ & Hp).
  apply list_elem_of_In, list_elem_of_fmap in Hp as (file & -> & Hfile).
  apply list_elem_of_filter in Hfile as [Hmp3%PathFacts.endswith_mp3_last _].
  rewrite PathFacts.last_join; [done|]. by intros ->.
Qed.

(** X25.  The lyric file of a track that [find_mp3_files] found is never
    one of the tracks found: saving lyrics cannot overwrite audio. *)
Theorem lyric_file_is_no_track (walk : list (pystr * list pystr * list pystr))
    (mp3_path : pystr) :
  mp3_path ∈ mp3_paths walk →
  ∃ lrc_path,
    Path.with_suffix mp3_path (lit ".lrc") = Some lrc_path ∧
    lrc_path ∉ mp3_paths walk.
Proof.
  intros Hp.
  destruct (PathFacts.mp3_paths_with_suffix walk mp3_path (lit ".lrc") Hp)
    as [lrc Hlrc].
  exists lrc. split; [done|]. intros Hin.
  assert (last lrc = Some 99%N) as Hlast.
  { unfold Path.with_suffix in Hlrc. case_bool_decide; [done|].
    injection Hlrc as <-.
    change (lit ".lrc") with ([46; 108; 114]%N ++ [99%N]).
    by rewrite app_assoc, last_snoc. }
  apply find_mp3_files_finds_last in Hin. congruence.
Qed.

Lemma lyric_file_is_no_track_run :
  ∃ lrc_path,
    Path.with_suffix (lit "music/C - D.MP3") (lit ".lrc") = Some lrc_path ∧
    lrc_path ∉ mp3_paths (os_walk Run.two_tracks (lit "music")).
Proof.
  apply (lyric_file_is_no_track (os_walk Run.two_tracks (lit "music"))
           (lit "music/C - D.MP3")).
  decide_now.
Defined.

(** The paths of an entry [base.ext]: no slash in it, a non-empty base, no
    dot in the extension. *)
Lemma entry_paths (root base ext : pystr) :
  base ≠ [] → ext ≠ [] →
  Path.slash ∉ base → Path.slash ∉ ext → Path.dot ∉ ext →
  let mp3_path := Path.join root (base ++ Path.dot :: ext) in
  Path.stem mp3_path = base ∧
  Path.with_suffix mp3_path (lit ".lrc")
    = Some (Path.join root (base ++ lit ".lrc")).
Proof.
  intros Hbase Hext Hsb Hse Hde. cbv zeta.
  set (file := base ++ Path.dot :: ext).
  assert (Path.slash ∉ file) as Hsf.
  { unfold file. rewrite not_elem_of_app, not_elem_of_cons. done. }
  assert (file ≠ []) as Hfile by (unfold file; by destruct base).
  pose proof (FindFacts.name_join root file Hfile Hsf) as Hname.
  assert (Str.rfind_char Path.dot file = Some (length base)) as Hdot.
  { by apply FindFacts.rfind_char_last. }
  assert (bool_decide (0 < length base) &&
          bool_decide (length base < length file - 1) = true) as Hmid.
  { apply andb_true_iff. split; apply bool_decide_eq_true.
    - destruct base; [done|simpl; lia].
    - unfold file. rewrite length_app. simpl. destruct ext; [done|simpl; lia]. }
  assert (Path.suffix (Path.join root file) = Path.dot :: ext) as Hsuffix.
  { unfold Path.suffix. rewrite Hname. cbv zeta. rewrite Hdot, Hmid.
    unfold file. by rewrite drop_app_length. }
  split.
  - unfold Path.stem. rewrite Hname. cbv zeta. rewrite Hdot, Hmid.
    unfold file. by rewrite take_app_length.
  - unfold Path.with_suffix. rewrite Hname, Hsuffix.
    rewrite bool_decide_eq_false_2 by done. f_equal.
    destruct (FindFacts.join_prefix root file (base ++ lit ".lrc"))
      as (pre & -> & ->); [by apply FindFacts.startswith_slash..|].
    unfold file. rewrite !app_assoc, (length_app (pre ++ base)).
    replace (length (pre ++ base) + length (Path.dot :: ext)
             - length (Path.dot :: ext)) with (length (pre ++ base)) by lia.
    by rewrite take_app_length.
Qed.

(** X27.  A directory entry [base.mp3], in any case of the extension and
    with a non-empty base, that [os.walk] lists under [root]:
    [find_mp3_files] returns its path; when the lyric file opens and the
    write goes through, [save_lrc_file] puts the text into [base.lrc] in
    the same directory and into no other file; and when the track has no
    tags and its base no [" - "], the title [get_mp3_metadata] gives is the
    base, dots inside it included. *)
Theorem lyric_file_is_a_sibling (env : Env)
    (walk : list (pystr * list pystr * list pystr))
    (root : pystr) (dirs files : list pystr) (base : pystr) (m p : N)
    (s : pystr) (w : World) :
  (root, dirs, files) ∈ walk →
  base ++ [46; m; p; 51]%N ∈ files →
  (m = 109 ∨ m = 77)%N → (p = 112 ∨ p = 80)%N →
  base ≠ [] → Path.slash ∉ base →
  let mp3_path := Path.join root (base ++ [46; m; p; 51]%N) in
  let lrc_path := Path.join root (base ++ lit ".lrc") in
  mp3_path ∈ mp3_paths walk ∧
  (io_open env lrc_path = None → io_write env lrc_path s = None →
   save_lrc_file env mp3_path (PyStr s) w =
     (Ok true, mkWorld (<[lrc_path := s]> (fs w)) (trace w))) ∧
  (mutagen_MP3 env mp3_path = inr None → no_separator (lit " - ") base →
   (get_mp3_metadata env mp3_path w).1 = Ok (Some (lit "Unknown"), Some base)).
Proof.
  intros Hwalk Hfile Hm Hp Hbase Hsb. cbv zeta.
  destruct (entry_paths root base [m; p; 51%N]) as [Hstem Hlrc];
    [done|done|done| | |].
  { rewrite !not_elem_of_cons.
    destruct Hm as [->| ->], Hp as [->| ->];
      split_and!; try done; apply not_elem_of_nil. }
  { rewrite !not_elem_of_cons.
    destruct Hm as [->| ->], Hp as [->| ->];
      split_and!; try done; apply not_elem_of_nil. }
  change (base ++ Path.dot :: [m; p; 51%N]) with (base ++ [46; m; p; 51]%N)
    in Hstem, Hlrc.
  split_and!.
  - unfold mp3_paths. apply list_elem_of_In, in_flat_map.
    exists (root, dirs, files). split; [by apply list_elem_of_In|].
    apply list_elem_of_In, list_elem_of_fmap. eexists. split; [done|].
    apply list_elem_of_filter. split; [|done].
    apply FindFacts.endswith_mp3. by exists base, m, p.
  - intros Ho Hw. unfold save_lrc_file, try_except, open_w, write_close.
    munfold. rewrite Hlrc. simpl. rewrite Ho, Hw. simpl.
    by rewrite insert_insert_eq.
  - intros Htags Hno. apply StrFacts.contains_false in Hno.
    unfold get_mp3_metadata, try_except, MP3. munfold. rewrite Htags. simpl.
    by rewrite Hstem, Hno.
Qed.

Lemma lyric_file_is_a_sibling_run :
  save_lrc_file Run.two_tracks (lit "music/C - D.MP3") (PyStr Run.hello)
                Run.with_lyrics =
    (Ok true,
     mkWorld (<[lit "music/C - D.lrc" := Run.hello]> (fs Run.with_lyrics)) []) ∧
  (get_mp3_metadata Run.plain_name (lit "music/Song.mp3") Run.start).1
    = Ok (Some (lit "Unknown"), Some (lit "Song")).
Proof.
  split.
  - destruct (lyric_file_is_a_sibling Run.two_tracks
                (os_walk Run.two_tracks (lit "music")) (lit "music") []
                [lit "A - B.mp3"; lit "notes.txt"; lit "C - D.MP3"]
                (lit "C - D") 77%N 80%N Run.hello Run.with_lyrics)
      as (_ & H & _).
    + decide_now.
    + decide_now.
    + by right.
    + by right.
    + discriminate.
    + decide_now.
    + apply H; reflexivity.
  - destruct (lyric_file_is_a_sibling Run.plain_name
                (os_walk Run.plain_name (lit "music")) (lit "music") []
                [lit "Song.mp3"] (lit "Song") 109%N 112%N [] Run.start)
      as (_ & _ & H).
    + decide_now.
    + decide_now.
    + by left.
    + by left.
    + discriminate.
    + decide_now.
    + apply H; [reflexivity|]. apply StrFacts.contains_false. reflexivity.
Defined.

(** X20.  In the file as it is, the first track that is not skipped and
    has an artist and a title ends the loop with the [NameError], whatever
    tracks follow it. *)
Theorem unbound_name_stops_the_loop (env : Env) (mp3_path lrc_path : pystr)
    (rest : list pystr) (skip debug : bool) (total i : nat) (c : Counts)
    (w : World) (artist title : option pystr) :
  Path.with_suffix mp3_path (lit ".lrc") = Some lrc_path →
  skip = false ∨ fs w !! lrc_path = None →
  (get_mp3_metadata env mp3_path w).1 = Ok (artist, title) →
  no_metadata artist title = false →
  (loop env module_globals skip debug total c i (mp3_path :: rest) w).1 =
    Raise (Exception (NameError (lit "get_lyrics_link"))).
Proof.
  intros Hlrc Hskip Hmeta Hok. simpl. unfold loop_body.
  unfold mbind at 1 2 3, M_bind at 1 2 3, print at 1, emit at 1.
  set (w0 := mkWorld (fs w) (trace w ++ [EvPrint (MsgIndex i total)])).
  destruct (get_mp3_metadata_world env mp3_path
              (mkWorld (fs w0)
                 (trace w0 ++ [EvPrint (MsgProcessing (Path.name mp3_path))])) w)
    as (Hsame & _).
  rewrite Hmeta in Hsame.
  destruct (get_mp3_metadata env mp3_path _) as [r w1] eqn:Hrun in Hsame.
  simpl in Hsame. subst r.
  by erewrite (process_mp3_file_unbound env mp3_path lrc_path skip debug w0 w1).
Qed.

Lemma unbound_name_stops_the_loop_run :
  (loop Run.two_tracks module_globals true false 2 (mkCounts 0 0 0) 1
        [lit "music/A - B.mp3"; lit "music/C - D.MP3"] Run.start).1 =
    Raise (Exception (NameError (lit "get_lyrics_link"))).
Proof.
  apply (unbound_name_stops_the_loop Run.two_tracks (lit "music/A - B.mp3")
           (lit "music/A - B.lrc") [lit "music/C - D.MP3"] true false 2 1
           (mkCounts 0 0 0) Run.start (Some (lit "A")) (Some (lit "B"))).
  - reflexivity.
  - right. reflexivity.
  - vm_compute. reflexivity.
  - reflexivity.
Defined.
